(** * dyshell: the command interpretation engine

    A shallow embedding of [main.go] (and [signal_unix.go]) of the dyshell
    interactive shell, and the properties of its dispatcher, command
    substitution, path cache, history, job control and customization
    builtins.

    Go strings are byte sequences: they are modelled as [string], one
    [ascii] per byte.  The Go standard-library functions the shell calls
    ([strings.Index], [strings.Fields], [strconv.Atoi], ...) are written
    out below under their Go names.  [strings.TrimSpace] and
    [strings.Fields] are written for strings of ASCII bytes, on which
    [unicode.IsSpace] is the test of the six ASCII white-space bytes; what
    is proved through them is stated for such strings ([strings.isASCII]),
    the multi-byte spaces of Unicode being left out. *)

From Stdlib Require Import ZArith Ascii String List Lia Bool.
From stdpp Require Import base option list strings pretty gmap.

Local Open Scope Z_scope.

(** ** Package [strings] *)

Module strings.

Definition len (s : string) : nat := String.length s.

(** [s[n:]] and [s[:n]]. *)
Fixpoint drop (n : nat) (s : string) : string :=
  match n, s with
  | O, _ => s
  | S n', String _ s' => drop n' s'
  | S _, EmptyString => EmptyString
  end.

Fixpoint take (n : nat) (s : string) : string :=
  match n, s with
  | O, _ => EmptyString
  | S n', String c s' => String c (take n' s')
  | S _, EmptyString => EmptyString
  end.

(** [s[lo:hi]] *)
Definition slice (lo hi : nat) (s : string) : string :=
  take (hi - lo) (drop lo s).

Fixpoint HasPrefix (s prefix : string) {struct prefix} : bool :=
  match prefix, s with
  | EmptyString, _ => true
  | String c p', String d s' => Ascii.eqb c d && HasPrefix s' p'
  | String _ _, EmptyString => false
  end.

(** Position of the first instance of [substr] in [s]. *)
Fixpoint index (s substr : string) : option nat :=
  if HasPrefix s substr then Some O
  else match s with
       | EmptyString => None
       | String _ s' => S <$> index s' substr
       end.

(** [strings.Index]: the position as an int, -1 when absent. *)
Definition Index (s substr : string) : Z :=
  match index s substr with
  | Some n => Z.of_nat n
  | None => -1
  end.

Definition Contains (s substr : string) : bool := 0 <=? Index s substr.

Definition HasSuffix (s suffix : string) : bool :=
  (len suffix <=? len s)%nat
  && String.eqb (drop (len s - len suffix) s) suffix.

Definition TrimSuffix (s suffix : string) : string :=
  if HasSuffix s suffix then take (len s - len suffix) s else s.

(** [unicode.IsSpace] on a rune of one byte: tab, new-line, vertical tab,
    form feed, carriage return and blank.  The spaces of Unicode beyond
    them (U+0085, U+00A0, U+2000.., U+3000) take two or three bytes, none
    of them ASCII. *)
Definition isSpace (c : ascii) : bool := Ascii.is_space c.

(** A string of ASCII bytes: no byte has its high bit set. *)
Definition isASCIIByte (c : ascii) : bool :=
  match c with
  | Ascii _ _ _ _ _ _ _ high => negb high
  end.

Fixpoint isASCII (s : string) : bool :=
  match s with
  | EmptyString => true
  | String c s' => isASCIIByte c && isASCII s'
  end.

Fixpoint TrimLeftFunc (f : ascii -> bool) (s : string) : string :=
  match s with
  | EmptyString => EmptyString
  | String c s' => if f c then TrimLeftFunc f s' else s
  end.

Fixpoint TrimRightFunc (f : ascii -> bool) (s : string) : string :=
  match s with
  | EmptyString => EmptyString
  | String c s' =>
      match TrimRightFunc f s' with
      | EmptyString => if f c then EmptyString else String c EmptyString
      | r => String c r
      end
  end.

Definition TrimSpace (s : string) : string :=
  TrimRightFunc isSpace (TrimLeftFunc isSpace s).

Fixpoint inCutset (cutset : string) (c : ascii) : bool :=
  match cutset with
  | EmptyString => false
  | String d cs => Ascii.eqb c d || inCutset cs c
  end.

Definition Trim (s cutset : string) : string :=
  TrimRightFunc (inCutset cutset) (TrimLeftFunc (inCutset cutset) s).

(** [strings.Fields]: the maximal runs of non-space bytes.  [cur] is the
    field being read, if any. *)
Fixpoint fields_go (cur : option string) (s : string) : list string :=
  match s with
  | EmptyString => option_list cur
  | String c s' =>
      if isSpace c then option_list cur ++ fields_go None s'
      else fields_go (Some (from_option (fun w => w +:+ String c "") (String c "") cur)) s'
  end.

Definition Fields (s : string) : list string := fields_go None s.

(** [strings.Split(s, sep)] for a one-byte separator, which is what every
    call of the shell passes: the pieces between the separators, [n+1]
    pieces for [n] separators. *)
Fixpoint Split (s : string) (sep : ascii) : list string :=
  match s with
  | EmptyString => [EmptyString]
  | String c s' =>
      if Ascii.eqb c sep then EmptyString :: Split s' sep
      else match Split s' sep with
           | w :: ws => String c w :: ws
           | [] => [String c EmptyString]
           end
  end.

(** [strings.SplitN(s, sep, 2)] for a one-byte separator: cut at the first
    separator only. *)
Fixpoint SplitN2 (s : string) (sep : ascii) : list string :=
  match s with
  | EmptyString => [EmptyString]
  | String c s' =>
      if Ascii.eqb c sep then [EmptyString; s']
      else match SplitN2 s' sep with
           | w :: ws => String c w :: ws
           | [] => [String c EmptyString]
           end
  end.

Definition Join (elems : list string) (sep : string) : string :=
  String.concat sep elems.

End strings.

(** ** Package [strconv] *)

Module strconv.

Definition digit (c : ascii) : option Z :=
  let n := nat_of_ascii c in
  if ((48 <=? n) && (n <=? 57))%nat then Some (Z.of_nat n - 48) else None.

Fixpoint digits (acc : Z) (s : string) : option Z :=
  match s with
  | EmptyString => Some acc
  | String c s' =>
      match digit c with
      | Some d => digits (acc * 10 + d) s'
      | None => None
      end
  end.

(** [int] is 64 bits wide. *)
Definition minInt : Z := - 2 ^ 63.
Definition maxInt : Z := 2 ^ 63 - 1.

(** [strconv.Atoi]: an optional sign and at least one decimal digit, no
    other byte; [None] stands for a non-nil error (syntax or range). *)
Definition Atoi (s : string) : option Z :=
  match s with
  | EmptyString => None
  | String c s' =>
      let neg := Ascii.eqb c "-" in
      let body := if neg || Ascii.eqb c "+" then s' else s in
      match body with
      | EmptyString => None
      | _ =>
          n ← digits 0 body;
          let v := if neg then - n else n in
          if (minInt <=? v) && (v <=? maxInt) then Some v else None
      end
  end.

End strconv.

(** [%d] *)
Definition fmt_d (n : Z) : string := pretty n.

Fixpoint spaces (n : nat) : string :=
  match n with O => "" | S n' => String " " (spaces n') end.

(** [%-Ns] and [%Nd] *)
Definition padRight (w : nat) (s : string) : string :=
  s +:+ spaces (w - strings.len s).
Definition padLeft (w : nat) (s : string) : string :=
  spaces (w - strings.len s) +:+ s.

(** The new-line byte and the two quote bytes stripped from alias values. *)
Definition nl : string := String "010" "".
Definition quotes : string := String "'" (String "034" "").
Definition backslash : string := String "092" "".

(** ** The operating system

    Everything the shell asks of its environment is a [Call]; the
    environment answers with a [Reply] that may depend on every call made
    so far, which the state keeps in [log].  Processes, files and the
    process environment therefore need no model of their own. *)

Inductive Stream : Type :=
| SNil                      (* not connected *)
| SWriter                   (* the writer of the current dispatch *)
| SOsStdout
| SOsStderr
| SFile (name : string)
| SPipe (stage : nat).      (* the stdout pipe of pipeline stage [stage] *)

(** [*exec.Cmd]: [Args] holds the program name and its arguments. *)
Record Cmd : Type := mkCmd {
  Args : list string;
  Stdin : Stream;
  Stdout : Stream;
  Stderr : Stream
}.

(** [exec.Command(name, arg...)] *)
Definition Command (argv : list string) : Cmd := mkCmd argv SNil SNil SNil.

Definition with_Stdin (f : Stream) (c : Cmd) : Cmd :=
  mkCmd (Args c) f (Stdout c) (Stderr c).
Definition with_Stdout (f : Stream) (c : Cmd) : Cmd :=
  mkCmd (Args c) (Stdin c) f (Stderr c).
Definition with_Stderr (f : Stream) (c : Cmd) : Cmd :=
  mkCmd (Args c) (Stdin c) (Stdout c) f.

Inductive Call : Type :=
| CShOutput (subCmd : string)   (* exec.Command("/bin/sh", "-c", subCmd).Output() *)
| CExpandEnv (s : string)       (* os.ExpandEnv *)
| CGetenv (key : string)
| CSetenv (key value : string)
| CUnsetenv (key : string)
| CStat (path : string)
| CCreate (name : string)       (* os.Create: create or truncate *)
| COpen (name : string)         (* os.Open: read-only *)
| CClose (name : string)
| CWrite (name text : string)   (* fmt.Fprintf to an open file *)
| CReadFile (name : string)
| CReadDir (name : string)
| CRemove (name : string)
| CMkdir (name : string)
| CChdir (dir : string)
| CGetwd
| CCurrentUser                  (* user.Current *)
| CRun (cmd : Cmd)              (* cmd.Run *)
| CStart (cmd : Cmd)            (* cmd.Start *)
| CWait (cmd : Cmd)             (* cmd.Wait *)
| CSignalCont (pid : Z)         (* Process.Signal(syscall.SIGCONT) *)
| CFindProcess (pid : Z)
| CKill (pid : Z)               (* Process.Kill *)
| CPrintf (text : string)       (* fmt.Printf, the standard output of the shell *)
| CExit (code : Z).             (* os.Exit *)

Inductive ErrKind : Type := ExitError | PermissionError | NotExistError | OtherError.

Record DirEntry : Type := mkDirEntry {
  d_name : string;
  d_info_ok : bool;             (* file.Info() has a nil error *)
  d_size : Z;
  d_modTime : string            (* ModTime().Format("Jan 02 15:04") *)
}.

(** The answer to a call: [r_ok] is [err == nil]; which other fields are
    read depends on the call. *)
Record Reply : Type := mkReply {
  r_ok : bool;
  r_out : string;               (* data returned, or text a process wrote to the writer *)
  r_err : string;               (* the error as [%v] prints it *)
  r_kind : ErrKind;
  r_pid : Z;                    (* cmd.Process.Pid *)
  r_home : string;              (* user.HomeDir *)
  r_entries : list DirEntry
}.

Inductive GOOS : Type := unix | windows.

Record System : Type := mkSystem {
  goos : GOOS;                                  (* the system the shell is built for *)
  PathListSeparator : ascii;
  filepath_Join : string -> string -> string;
  answer : list Call -> Call -> Reply
}.

(** ** The state of the shell: the package-level variables of main.go *)

(** A background job: the started command and its process id. *)
Record Job : Type := mkJob { job_cmd : Cmd; job_pid : Z }.

Record Shell : Type := mkShell {
  history : list string;
  aliases : gmap string string;
  envVars : gmap string string;
  jobs : list Job;
  commandCache : gmap string string;
  timers : list (Z * string);
  clock : Z;
  shellBgOpacity : Z;
  shellTextSize : Z;
  shellTextColor : string;
  shellTextBold : bool;
  shellPromptStyle : string;
  input : string;
  writer : string;
  log : list Call
}.

Definition set_history (v : list string) (s : Shell) : Shell :=
  mkShell v (aliases s) (envVars s) (jobs s) (commandCache s) (timers s) (clock s) (shellBgOpacity s) (shellTextSize s) (shellTextColor s) (shellTextBold s) (shellPromptStyle s) (input s) (writer s) (log s).

Definition set_aliases (v : gmap string string) (s : Shell) : Shell :=
  mkShell (history s) v (envVars s) (jobs s) (commandCache s) (timers s) (clock s) (shellBgOpacity s) (shellTextSize s) (shellTextColor s) (shellTextBold s) (shellPromptStyle s) (input s) (writer s) (log s).

Definition set_envVars (v : gmap string string) (s : Shell) : Shell :=
  mkShell (history s) (aliases s) v (jobs s) (commandCache s) (timers s) (clock s) (shellBgOpacity s) (shellTextSize s) (shellTextColor s) (shellTextBold s) (shellPromptStyle s) (input s) (writer s) (log s).

Definition set_jobs (v : list Job) (s : Shell) : Shell :=
  mkShell (history s) (aliases s) (envVars s) v (commandCache s) (timers s) (clock s) (shellBgOpacity s) (shellTextSize s) (shellTextColor s) (shellTextBold s) (shellPromptStyle s) (input s) (writer s) (log s).

Definition set_commandCache (v : gmap string string) (s : Shell) : Shell :=
  mkShell (history s) (aliases s) (envVars s) (jobs s) v (timers s) (clock s) (shellBgOpacity s) (shellTextSize s) (shellTextColor s) (shellTextBold s) (shellPromptStyle s) (input s) (writer s) (log s).

Definition set_timers (v : list (Z * string)) (s : Shell) : Shell :=
  mkShell (history s) (aliases s) (envVars s) (jobs s) (commandCache s) v (clock s) (shellBgOpacity s) (shellTextSize s) (shellTextColor s) (shellTextBold s) (shellPromptStyle s) (input s) (writer s) (log s).

Definition set_clock (v : Z) (s : Shell) : Shell :=
  mkShell (history s) (aliases s) (envVars s) (jobs s) (commandCache s) (timers s) v (shellBgOpacity s) (shellTextSize s) (shellTextColor s) (shellTextBold s) (shellPromptStyle s) (input s) (writer s) (log s).

Definition set_shellBgOpacity (v : Z) (s : Shell) : Shell :=
  mkShell (history s) (aliases s) (envVars s) (jobs s) (commandCache s) (timers s) (clock s) v (shellTextSize s) (shellTextColor s) (shellTextBold s) (shellPromptStyle s) (input s) (writer s) (log s).

Definition set_shellTextSize (v : Z) (s : Shell) : Shell :=
  mkShell (history s) (aliases s) (envVars s) (jobs s) (commandCache s) (timers s) (clock s) (shellBgOpacity s) v (shellTextColor s) (shellTextBold s) (shellPromptStyle s) (input s) (writer s) (log s).

Definition set_shellTextColor (v : string) (s : Shell) : Shell :=
  mkShell (history s) (aliases s) (envVars s) (jobs s) (commandCache s) (timers s) (clock s) (shellBgOpacity s) (shellTextSize s) v (shellTextBold s) (shellPromptStyle s) (input s) (writer s) (log s).

Definition set_shellTextBold (v : bool) (s : Shell) : Shell :=
  mkShell (history s) (aliases s) (envVars s) (jobs s) (commandCache s) (timers s) (clock s) (shellBgOpacity s) (shellTextSize s) (shellTextColor s) v (shellPromptStyle s) (input s) (writer s) (log s).

Definition set_shellPromptStyle (v : string) (s : Shell) : Shell :=
  mkShell (history s) (aliases s) (envVars s) (jobs s) (commandCache s) (timers s) (clock s) (shellBgOpacity s) (shellTextSize s) (shellTextColor s) (shellTextBold s) v (input s) (writer s) (log s).

Definition set_input (v : string) (s : Shell) : Shell :=
  mkShell (history s) (aliases s) (envVars s) (jobs s) (commandCache s) (timers s) (clock s) (shellBgOpacity s) (shellTextSize s) (shellTextColor s) (shellTextBold s) (shellPromptStyle s) v (writer s) (log s).

Definition set_writer (v : string) (s : Shell) : Shell :=
  mkShell (history s) (aliases s) (envVars s) (jobs s) (commandCache s) (timers s) (clock s) (shellBgOpacity s) (shellTextSize s) (shellTextColor s) (shellTextBold s) (shellPromptStyle s) (input s) v (log s).

Definition set_log (v : list Call) (s : Shell) : Shell :=
  mkShell (history s) (aliases s) (envVars s) (jobs s) (commandCache s) (timers s) (clock s) (shellBgOpacity s) (shellTextSize s) (shellTextColor s) (shellTextBold s) (shellPromptStyle s) (input s) (writer s) v.

(** [timers] holds the pending [time.AfterFunc] callbacks of the path cache,
    each with its deadline and the key it deletes; [clock] is the current
    time, in nanoseconds like [time.Duration].  [writer] is the text written
    to the writer of the dispatches so far, [log] the calls made to the
    operating system. *)

Definition Second : Z := 1000000000.
Definition Minute : Z := 60 * Second.
Definition cacheExpiration : Z := 5 * Minute.

Definition builtin_names : list string :=
  ["echo"; "exit"; "type"; "pwd"; "cd"; "whoami"; "ls"; "cat"; "touch"; "rm";
   "mkdir"; "rmdir"; "history"; "clear"; "alias"; "unalias"; "export";
   "unset"; "jobs"; "fg"; "bg"; "kill"; "shell"].

Definition builtins : gmap string bool :=
  list_to_map ((fun name => (name, true)) <$> builtin_names).

(** [builtins[cmd]]: [false] for a key that is absent. *)
Definition isBuiltin (cmd : string) : bool := default false (builtins !! cmd).

(** The state after [init()]. *)
Definition initShell : Shell :=
  {| history := []; aliases := ∅; envVars := ∅; jobs := [];
     commandCache := ∅; timers := []; clock := 0;
     shellBgOpacity := 100; shellTextSize := 12; shellTextColor := "white";
     shellTextBold := false; shellPromptStyle := "default";
     input := ""; writer := ""; log := [] |}.

(** ** Running the shell: state, panics, exit and fuel *)

Inductive Res (A : Type) : Type :=
| Ret (a : A) (s : Shell)
| Panic (s : Shell)               (* a run-time panic ends the process *)
| Exit (code : Z) (s : Shell)     (* os.Exit *)
| OutOfFuel (s : Shell).          (* a loop has not finished within the fuel *)
Arguments Ret {A} a s.
Arguments Panic {A} s.
Arguments Exit {A} code s.
Arguments OutOfFuel {A} s.

Definition M (A : Type) : Type := Shell -> Res A.

Definition ret {A} (a : A) : M A := fun s => Ret a s.

Definition bind {A B} (m : M A) (k : A -> M B) : M B :=
  fun s =>
    match m s with
    | Ret a s' => k a s'
    | Panic s' => Panic s'
    | Exit code s' => Exit code s'
    | OutOfFuel s' => OutOfFuel s'
    end.

Declare Scope shell_scope.
Delimit Scope shell_scope with shell.
Notation "x <- m ;; k" := (bind m (fun x => k))
  (at level 100, m at next level, right associativity) : shell_scope.
Notation "m ;; k" := (bind m (fun _ => k))
  (at level 100, right associativity) : shell_scope.
Local Open Scope shell_scope.

Definition gets {A} (f : Shell -> A) : M A := fun s => Ret (f s) s.
Definition modify (f : Shell -> Shell) : M unit := fun s => Ret tt (f s).
Definition panic {A} : M A := fun s => Panic s.
Definition outOfFuel {A} : M A := fun s => OutOfFuel s.

(** The state a run stops in, whatever the outcome. *)
Definition final {A} (r : Res A) : Shell :=
  match r with
  | Ret _ s | Panic s | Exit _ s | OutOfFuel s => s
  end.

Fixpoint forM_ {A} (l : list A) (f : A -> M unit) : M unit :=
  match l with
  | [] => ret tt
  | x :: l' => f x ;; forM_ l' f
  end.

(** [Fprint(writer, text)] *)
Definition Fprint (text : string) : M unit :=
  modify (fun s => set_writer (writer s +:+ text) s).

(** [l[0]], which panics on an empty slice. *)
Definition index0 (l : list string) : M string :=
  match l with
  | [] => panic
  | x :: _ => ret x
  end.

Section Shell.

Variable sys : System.

Definition call (c : Call) : M Reply :=
  fun s => Ret (answer sys (log s) c) (set_log (log s ++ [c]) s).

Definition os_Exit {A} (code : Z) : M A :=
  fun s => Exit code (set_log (log s ++ [CExit code]) s).

(** *** The path cache *)

Definition cacheCommandPath (cmd path : string) : M unit :=
  modify (fun s =>
    set_timers (timers s ++ [(clock s + cacheExpiration, cmd)])
      (set_commandCache (<[cmd := path]> (commandCache s)) s)).

Definition getCachedCommandPath (cmd : string) : M (option string) :=
  gets (fun s => commandCache s !! cmd).

(** The callbacks of [time.AfterFunc] that are due once [dt] has passed:
    each deletes its key. *)
Definition due (now : Z) (t : Z * string) : bool := t.1 <=? now.

Definition elapse (dt : Z) : M unit :=
  modify (fun s =>
    let now := clock s + dt in
    set_clock now
      (set_timers (List.filter (fun t => negb (due now t)) (timers s))
         (set_commandCache
            (foldr (fun t m => delete t.2 m) (commandCache s)
               (List.filter (due now) (timers s))) s))).

(** *** Command substitution *)

Fixpoint substituteCommand (fuel : nat) (cmdLine : string) : M string :=
  match fuel with
  | O => outOfFuel
  | S fuel' =>
      let start := strings.Index cmdLine "$(" in
      if start =? -1 then ret cmdLine
      else
        let end_ := strings.Index (strings.drop (Z.to_nat start) cmdLine) ")" in
        if end_ =? -1 then ret cmdLine
        else
          let end_ := end_ + start in
          let subCmd :=
            strings.slice (Z.to_nat (start + 2)) (Z.to_nat end_) cmdLine in
          r <- call (CShOutput subCmd) ;;
          if r_ok r
          then substituteCommand fuel'
                 (strings.take (Z.to_nat start) cmdLine
                  +:+ strings.TrimSpace (r_out r)
                  +:+ strings.drop (Z.to_nat (end_ + 1)) cmdLine)
          else substituteCommand fuel' cmdLine
  end.

(** *** External commands *)

(** [cmd.Run()] with what the process writes to the writer. *)
Definition usesWriter (cmd : Cmd) : bool :=
  match Stdout cmd, Stderr cmd with
  | SWriter, _ | _, SWriter => true
  | _, _ => false
  end.

Definition Run (cmd : Cmd) : M Reply :=
  r <- call (CRun cmd) ;;
  (if usesWriter cmd then Fprint (r_out r) else ret tt) ;;
  ret r.

Definition executeExternalCommand (path : string) (args : list string) : M unit :=
  let cmd := with_Stderr SWriter (with_Stdout SWriter (Command (path :: args))) in
  r <- Run cmd ;;
  if r_ok r then ret tt
  else
    match r_kind r with
    | ExitError => Fprint (path +:+ ": " +:+ r_err r +:+ nl)
    | PermissionError => Fprint (path +:+ ": permission denied" +:+ nl)
    | NotExistError => Fprint (path +:+ ": command not found" +:+ nl)
    | OtherError => Fprint (path +:+ ": " +:+ r_err r +:+ nl)
    end.

(** The search of handleCommand through the directories of PATH. *)
Fixpoint scanPath (paths : list string) (cmd : string) (args : list string) : M bool :=
  match paths with
  | [] => ret false
  | path :: rest =>
      let fullPath := filepath_Join sys path cmd in
      r <- call (CStat fullPath) ;;
      if r_ok r
      then cacheCommandPath cmd fullPath ;;
           executeExternalCommand fullPath args ;;
           ret true
      else scanPath rest cmd args
  end.

(** Plain external mode: the last branch of handleCommand. *)
Definition runExternal (cmd : string) (args : list string) : M unit :=
  cached <- getCachedCommandPath cmd ;;
  match cached with
  | Some path => executeExternalCommand path args
  | None =>
      r <- call (CGetenv "PATH") ;;
      let paths := strings.Split (r_out r) (PathListSeparator sys) in
      found <- scanPath paths cmd args ;;
      if found : bool then ret tt
      else Fprint (cmd +:+ ": command not found" +:+ nl)
  end.

(** *** Builtin commands *)

Definition Fprintln (text : string) : M unit := Fprint (text +:+ nl).

Fixpoint forI_ {A} (i : Z) (l : list A) (f : Z -> A -> M unit) : M unit :=
  match l with
  | [] => ret tt
  | x :: l' => f i x ;; forI_ (i + 1) l' f
  end.

Definition userHomeDir : M string :=
  r <- call CCurrentUser ;;
  ret (if r_ok r then r_home r else "").

(** Go ranges over a map in an unspecified order; the model takes the
    order of [map_to_list]. *)
Definition saveAliasesAndEnvVars (filepath : string) : M unit :=
  r <- call (CCreate filepath) ;;
  if negb (r_ok r)
  then _ <- call (CPrintf ("Error saving aliases and environment variables: "
                            +:+ r_err r +:+ nl)) ;; ret tt
  else
    al <- gets aliases ;;
    forM_ (map_to_list al) (fun kv =>
      _ <- call (CWrite filepath ("alias " +:+ kv.1 +:+ "='" +:+ kv.2 +:+ "'" +:+ nl)) ;;
      ret tt) ;;
    ev <- gets envVars ;;
    forM_ (map_to_list ev) (fun kv =>
      _ <- call (CWrite filepath (kv.1 +:+ "=" +:+ kv.2 +:+ nl)) ;; ret tt) ;;
    _ <- call (CClose filepath) ;; ret tt.

Definition saveEnvVars (filepath : string) : M unit :=
  r <- call (CCreate filepath) ;;
  if negb (r_ok r)
  then _ <- call (CPrintf ("Error saving environment variables: "
                            +:+ r_err r +:+ nl)) ;; ret tt
  else
    ev <- gets envVars ;;
    forM_ (map_to_list ev) (fun kv =>
      _ <- call (CWrite filepath (kv.1 +:+ "=" +:+ kv.2 +:+ nl)) ;; ret tt) ;;
    _ <- call (CClose filepath) ;; ret tt.

Definition builtin_exit : M unit :=
  home <- userHomeDir ;;
  saveAliasesAndEnvVars (filepath_Join sys home ".my_shell_aliases") ;;
  home <- userHomeDir ;;
  saveEnvVars (filepath_Join sys home ".my_shell_env") ;;
  os_Exit 0.

Fixpoint typeScan (paths : list string) (arg : string) : M bool :=
  match paths with
  | [] => ret false
  | path :: rest =>
      let fullPath := filepath_Join sys path arg in
      r <- call (CStat fullPath) ;;
      if r_ok r
      then Fprint (arg +:+ " is " +:+ fullPath +:+ nl) ;;
           cacheCommandPath arg fullPath ;;
           ret true
      else typeScan rest arg
  end.

Definition builtin_type (args : list string) : M unit :=
  match args with
  | [] => ret tt
  | arg :: _ =>
      if isBuiltin arg then Fprint (arg +:+ " is a shell builtin" +:+ nl)
      else
        cached <- getCachedCommandPath arg ;;
        match cached with
        | Some path => Fprint (arg +:+ " is " +:+ path +:+ nl)
        | None =>
            r <- call (CGetenv "PATH") ;;
            let paths := strings.Split (r_out r) (PathListSeparator sys) in
            found <- typeScan paths arg ;;
            if found : bool then ret tt
            else Fprint (arg +:+ " not found" +:+ nl)
        end
  end.

Definition builtin_pwd : M unit :=
  r <- call CGetwd ;;
  if r_ok r then Fprintln (r_out r)
  else Fprint ("Error: " +:+ r_err r +:+ nl).

(** The calls of updatePrompt only redraw the display and are left out. *)
Definition builtin_cd (args : list string) : M unit :=
  match args with
  | dir :: _ =>
      dir <- (if String.eqb dir "~" then userHomeDir else ret dir) ;;
      r <- call (CChdir dir) ;;
      if r_ok r then ret tt
      else Fprint ("cd: " +:+ dir +:+ ": No such file or directory" +:+ nl)
  | [] =>
      home <- userHomeDir ;;
      _ <- call (CChdir home) ;; ret tt
  end.

Definition builtin_whoami : M unit :=
  r <- call CCurrentUser ;;
  if r_ok r then Fprintln (r_out r)
  else Fprint ("Error: " +:+ r_err r +:+ nl).

Definition builtin_ls (args : list string) : M unit :=
  let path := match args with [] => "." | a :: _ => a end in
  r <- call (CReadDir path) ;;
  if negb (r_ok r)
  then Fprint ("ls: cannot access '" +:+ path +:+ "': " +:+ r_err r +:+ nl)
  else
    forM_ (r_entries r) (fun file =>
      if d_info_ok file
      then Fprint (padRight 20 (d_name file) +:+ " "
                   +:+ padLeft 10 (fmt_d (d_size file)) +:+ " "
                   +:+ d_modTime file +:+ nl)
      else ret tt).

(** The file builtins: one message for each operand that fails, the
    remaining operands are still tried. *)
Definition eachOperand (args : list string) (missing : string)
    (op : string -> M unit) : M unit :=
  match args with
  | [] => Fprintln missing
  | _ => forM_ args op
  end.

Definition builtin_cat (args : list string) : M unit :=
  eachOperand args "cat: missing file operand" (fun file =>
    r <- call (CReadFile file) ;;
    if r_ok r then Fprint (r_out r)
    else Fprint ("cat: cannot read '" +:+ file +:+ "': " +:+ r_err r +:+ nl)).

Definition builtin_touch (args : list string) : M unit :=
  eachOperand args "touch: missing file operand" (fun file =>
    r <- call (CCreate file) ;;
    if r_ok r then _ <- call (CClose file) ;; ret tt
    else Fprint ("touch: cannot create '" +:+ file +:+ "': " +:+ r_err r +:+ nl)).

Definition builtin_rm (args : list string) : M unit :=
  eachOperand args "rm: missing file operand" (fun file =>
    r <- call (CRemove file) ;;
    if r_ok r then ret tt
    else Fprint ("rm: cannot remove '" +:+ file +:+ "': " +:+ r_err r +:+ nl)).

Definition builtin_mkdir (args : list string) : M unit :=
  eachOperand args "mkdir: missing directory operand" (fun dir =>
    r <- call (CMkdir dir) ;;
    if r_ok r then ret tt
    else Fprint ("mkdir: cannot create directory '" +:+ dir +:+ "': "
                 +:+ r_err r +:+ nl)).

Definition builtin_rmdir (args : list string) : M unit :=
  eachOperand args "rmdir: missing directory operand" (fun dir =>
    r <- call (CRemove dir) ;;
    if r_ok r then ret tt
    else Fprint ("rmdir: cannot remove directory '" +:+ dir +:+ "': "
                 +:+ r_err r +:+ nl)).

Definition builtin_history : M unit :=
  h <- gets history ;;
  forI_ 0 h (fun i cmd => Fprint (fmt_d (i + 1) +:+ " " +:+ cmd +:+ nl)).

Definition builtin_clear : M unit :=
  _ <- Run (with_Stdout SWriter (Command ["clear"])) ;; ret tt.

Definition builtin_alias (args : list string) : M unit :=
  match args with
  | [] =>
      al <- gets aliases ;;
      forM_ (map_to_list al) (fun kv =>
        Fprint ("alias " +:+ kv.1 +:+ "='" +:+ kv.2 +:+ "'" +:+ nl))
  | _ =>
      forM_ args (fun alias =>
        match strings.SplitN2 alias "=" with
        | [name; value] =>
            modify (fun s =>
              set_aliases (<[name := strings.Trim value quotes]> (aliases s)) s)
        | _ => ret tt
        end)
  end.

Definition builtin_help : M unit :=
  Fprintln "Available commands:" ;;
  forM_ (map_to_list builtins) (fun kv => Fprint ("  " +:+ kv.1 +:+ nl)) ;;
  Fprintln "Use `man <command>` for more information on a command.".

Definition builtin_unalias (args : list string) : M unit :=
  forM_ args (fun alias =>
    modify (fun s => set_aliases (delete alias (aliases s)) s)).

Definition builtin_export (args : list string) : M unit :=
  forM_ args (fun envVar =>
    match strings.SplitN2 envVar "=" with
    | [name; value] =>
        _ <- call (CSetenv name value) ;;
        modify (fun s => set_envVars (<[name := value]> (envVars s)) s)
    | _ => ret tt
    end).

Definition builtin_unset (args : list string) : M unit :=
  forM_ args (fun envVar =>
    _ <- call (CUnsetenv envVar) ;;
    modify (fun s => set_envVars (delete envVar (envVars s)) s)).

Definition builtin_jobs : M unit :=
  js <- gets jobs ;;
  forI_ 0 js (fun i job =>
    Fprint ("[" +:+ fmt_d (i + 1) +:+ "]+  " +:+ fmt_d (job_pid job)
            +:+ " Running    " +:+ strings.Join (Args (job_cmd job)) " " +:+ nl)).

(** [jobs[jobNumber-1]] *)
Definition jobAt (jobNumber : Z) : M Job :=
  js <- gets jobs ;;
  match js !! Z.to_nat (jobNumber - 1) with
  | Some job => ret job
  | None => panic
  end.

(** [err == nil && jobNumber > 0 && jobNumber <= len(jobs)] *)
Definition validJob (n : option Z) (js : list Job) : option Z :=
  match n with
  | Some jobNumber =>
      if (0 <? jobNumber) && (jobNumber <=? Z.of_nat (length js))
      then Some jobNumber else None
  | None => None
  end.

Definition builtin_fg (args : list string) : M unit :=
  match args with
  | [] => ret tt
  | a :: _ =>
      js <- gets jobs ;;
      match validJob (strconv.Atoi a) js with
      | Some jobNumber =>
          job <- jobAt jobNumber ;;
          _ <- call (CWait (job_cmd job)) ;; ret tt
      | None => Fprint ("fg: " +:+ a +:+ ": no such job" +:+ nl)
      end
  end.

(** sendSignalContinue of main.go: the placeholder, which takes no
    argument and returns its error whatever the system.  It is the one the
    [bg] case calls, as [sendSignalContinue()]. *)
Definition sendSignalContinue : M (option string) :=
  ret (Some "SIGCONT not supported on Windows").

(** sendSignalContinue of signal_unix.go, which takes the job and signals
    its process.  Nothing in main.go calls it: the call there passes no
    job. *)
Definition signal_unix_sendSignalContinue (job : Job) : M (option string) :=
  r <- call (CSignalCont (job_pid job)) ;;
  ret (if r_ok r then None else Some (r_err r)).

Definition builtin_bg (args : list string) : M unit :=
  match args with
  | [] => ret tt
  | a :: _ =>
      js <- gets jobs ;;
      match validJob (strconv.Atoi a) js with
      | Some jobNumber =>
          job <- jobAt jobNumber ;;
          err <- sendSignalContinue ;;
          match err with
          | Some e => Fprint ("Failed to send continue signal: " +:+ e +:+ nl)
          | None => ret tt
          end
      | None => Fprint ("bg: " +:+ a +:+ ": no such job" +:+ nl)
      end
  end.

Definition builtin_kill (args : list string) : M unit :=
  match args with
  | [] => Fprintln "kill: missing PID operand"
  | a :: _ =>
      match strconv.Atoi a with
      | Some pid =>
          r <- call (CFindProcess pid) ;;
          if r_ok r
          then
            r <- call (CKill pid) ;;
            if r_ok r then Fprint ("Process " +:+ fmt_d pid +:+ " killed" +:+ nl)
            else Fprint ("Failed to kill process " +:+ fmt_d pid +:+ ": "
                         +:+ r_err r +:+ nl)
          else Fprint ("Failed to find process " +:+ fmt_d pid +:+ ": "
                       +:+ r_err r +:+ nl)
      | None => Fprint ("Invalid PID: " +:+ a +:+ nl)
      end
  end.

Definition handleShellCustomization (args : list string) : M unit :=
  match args with
  | [] | [_] => Fprintln "Usage: shell [option] [value]"
  | option :: rest =>
      let value := strings.Join rest " " in
      if String.eqb option "bg-opacity" then
        match strconv.Atoi value with
        | Some opacity =>
            if (0 <=? opacity) && (opacity <=? 100)
            then modify (set_shellBgOpacity opacity) ;;
                 Fprint ("Background opacity set to " +:+ fmt_d opacity +:+ "%" +:+ nl)
            else Fprintln "Invalid opacity value. Please enter a value between 0 and 100."
        | None =>
            Fprintln "Invalid opacity value. Please enter a value between 0 and 100."
        end
      else if String.eqb option "text-size" then
        match strconv.Atoi value with
        | Some size =>
            if 0 <? size
            then modify (set_shellTextSize size) ;;
                 Fprint ("Text size set to " +:+ fmt_d size +:+ nl)
            else Fprintln "Invalid text size. Please enter a positive integer."
        | None => Fprintln "Invalid text size. Please enter a positive integer."
        end
      else if String.eqb option "text-color" then
        modify (set_shellTextColor value) ;;
        Fprint ("Text color set to " +:+ value +:+ nl)
      else if String.eqb option "text-bold" then
        if String.eqb value "true" then
          modify (set_shellTextBold true) ;; Fprintln "Text bold set to true"
        else if String.eqb value "false" then
          modify (set_shellTextBold false) ;; Fprintln "Text bold set to false"
        else Fprintln "Invalid value for text-bold. Use true or false."
      else if String.eqb option "prompt-style" then
        modify (set_shellPromptStyle value) ;;
        Fprint ("Prompt style set to " +:+ value +:+ nl)
      else Fprintln "Unknown customization option."
  end.

Definition printShellCustomization : M unit :=
  s <- gets id ;;
  Fprintln "Shell Customization Options:" ;;
  Fprint ("bg-opacity: " +:+ fmt_d (shellBgOpacity s) +:+ "%" +:+ nl) ;;
  Fprint ("text-size: " +:+ fmt_d (shellTextSize s) +:+ nl) ;;
  Fprint ("text-color: " +:+ shellTextColor s +:+ nl) ;;
  Fprint ("text-bold: " +:+ (if shellTextBold s then "true" else "false") +:+ nl) ;;
  Fprint ("prompt-style: " +:+ shellPromptStyle s +:+ nl).

Definition builtin_shell (args : list string) : M unit :=
  match args with
  | [] => printShellCustomization
  | _ => handleShellCustomization args
  end.

(** The switch of executeBuiltinCommand; a verb without a case does
    nothing. *)
Definition executeBuiltinCommand (cmd : string) (args : list string) : M unit :=
  if String.eqb cmd "echo" then Fprintln (strings.Join args " ")
  else if String.eqb cmd "exit" then builtin_exit
  else if String.eqb cmd "type" then builtin_type args
  else if String.eqb cmd "pwd" then builtin_pwd
  else if String.eqb cmd "cd" then builtin_cd args
  else if String.eqb cmd "whoami" then builtin_whoami
  else if String.eqb cmd "ls" then builtin_ls args
  else if String.eqb cmd "cat" then builtin_cat args
  else if String.eqb cmd "touch" then builtin_touch args
  else if String.eqb cmd "rm" then builtin_rm args
  else if String.eqb cmd "mkdir" then builtin_mkdir args
  else if String.eqb cmd "rmdir" then builtin_rmdir args
  else if String.eqb cmd "history" then builtin_history
  else if String.eqb cmd "clear" then builtin_clear
  else if String.eqb cmd "alias" then builtin_alias args
  else if String.eqb cmd "help" then builtin_help
  else if String.eqb cmd "unalias" then builtin_unalias args
  else if String.eqb cmd "export" then builtin_export args
  else if String.eqb cmd "unset" then builtin_unset args
  else if String.eqb cmd "jobs" then builtin_jobs
  else if String.eqb cmd "fg" then builtin_fg args
  else if String.eqb cmd "bg" then builtin_bg args
  else if String.eqb cmd "kill" then builtin_kill args
  else if String.eqb cmd "shell" then builtin_shell args
  else ret tt.

(** *** Piped execution *)

(** The first loop of executePipedCommands: one command for each stage,
    [cmdArgs[0]] panics on a stage without a token. *)
Fixpoint buildStages (commands : list string) : M (list Cmd) :=
  match commands with
  | [] => ret []
  | cmdStr :: rest =>
      let cmdArgs := strings.Fields (strings.TrimSpace cmdStr) in
      _ <- index0 cmdArgs ;;
      cmds <- buildStages rest ;;
      ret (Command cmdArgs :: cmds)
  end.

(** The second loop: stage [i] reads the stdout pipe of stage [i-1], the
    last stage writes to the standard output of the shell. *)
Definition wireStage (n i : nat) (cmd : Cmd) : Cmd :=
  let cmd := if (i =? 0)%nat then cmd else with_Stdin (SPipe (i - 1)) cmd in
  let cmd := if (i =? n - 1)%nat then with_Stdout SOsStdout cmd
             else with_Stdout (SPipe i) cmd in
  with_Stderr SOsStderr cmd.

Fixpoint wireStages (n i : nat) (cmds : list Cmd) : list Cmd :=
  match cmds with
  | [] => []
  | cmd :: rest => wireStage n i cmd :: wireStages n (S i) rest
  end.

Definition executePipedCommands (cmdLine : string) : M unit :=
  let commands := strings.Split cmdLine "|" in
  cmds <- buildStages commands ;;
  let cmds := wireStages (length cmds) 0 cmds in
  forM_ cmds (fun cmd => _ <- call (CStart cmd) ;; ret tt) ;;
  forM_ cmds (fun cmd => _ <- call (CWait cmd) ;; ret tt).

(** *** Redirected execution *)

Definition runRedirected (name : string) (cmd : Cmd) : M unit :=
  r <- Run (with_Stderr SWriter cmd) ;;
  if r_ok r then ret tt
  else Fprint (name +:+ ": " +:+ r_err r +:+ nl).

(** [defer f.Close()] runs when the function returns. *)
Definition withInput (redirectIn name : string) (cmd : Cmd) : M unit :=
  if String.eqb redirectIn "" then runRedirected name cmd
  else
    r <- call (COpen redirectIn) ;;
    if negb (r_ok r)
    then Fprint ("Error opening file " +:+ redirectIn +:+ ": " +:+ r_err r +:+ nl)
    else runRedirected name (with_Stdin (SFile redirectIn) cmd) ;;
         _ <- call (CClose redirectIn) ;; ret tt.

Definition executeRedirectedCommand (cmdLine : string) : M unit :=
  let redirectOutIndex := strings.Index cmdLine ">" in
  let redirectInIndex := strings.Index cmdLine "<" in
  let '(cmdArgs, redirectOut, redirectIn) :=
    if negb (redirectOutIndex =? -1) then
      (strings.Fields (strings.TrimSpace (strings.take (Z.to_nat redirectOutIndex) cmdLine)),
       strings.TrimSpace (strings.drop (Z.to_nat (redirectOutIndex + 1)) cmdLine),
       "")
    else if negb (redirectInIndex =? -1) then
      (strings.Fields (strings.TrimSpace (strings.take (Z.to_nat redirectInIndex) cmdLine)),
       "",
       strings.TrimSpace (strings.drop (Z.to_nat (redirectInIndex + 1)) cmdLine))
    else (strings.Fields cmdLine, "", "") in
  name <- index0 cmdArgs ;;
  let cmd := Command cmdArgs in
  if String.eqb redirectOut "" then withInput redirectIn name cmd
  else
    r <- call (CCreate redirectOut) ;;
    if negb (r_ok r)
    then Fprint ("Error creating file " +:+ redirectOut +:+ ": " +:+ r_err r +:+ nl)
    else withInput redirectIn name (with_Stdout (SFile redirectOut) cmd) ;;
         _ <- call (CClose redirectOut) ;; ret tt.

(** *** The dispatcher *)

(** Background mode.  What the job writes later, while the shell goes on,
    is not part of the model. *)
Definition runBackground (cmdLine : string) : M unit :=
  let cmdLine := strings.TrimSuffix cmdLine "&" in
  let args := strings.Fields cmdLine in
  name <- index0 args ;;
  let cmd := with_Stderr SWriter (with_Stdout SWriter (Command args)) in
  r <- call (CStart cmd) ;;
  if r_ok r then
    modify (fun s => set_jobs (jobs s ++ [mkJob cmd (r_pid r)]) s) ;;
    js <- gets jobs ;;
    Fprint ("[" +:+ fmt_d (Z.of_nat (length js)) +:+ "] " +:+ fmt_d (r_pid r) +:+ nl)
  else Fprint (name +:+ ": " +:+ r_err r +:+ nl).

(** handleCommand from the check for a multiline command on: [cmdLine] is
    the line after substitution and expansion. *)
Definition dispatch (cmdLine : string) : M unit :=
  if strings.HasSuffix cmdLine backslash then
    modify (fun s => set_input (input s +:+ nl) s)
  else if strings.Contains cmdLine "|" then executePipedCommands cmdLine
  else
    let args := strings.Split cmdLine " " in
    cmd <- index0 args ;;
    al <- gets aliases ;;
    let '(cmd, args) :=
      match al !! cmd with
      | Some aliasCmd => (aliasCmd, aliasCmd :: tail args)
      | None => (cmd, args)
      end in
    if isBuiltin cmd then executeBuiltinCommand cmd (tail args)
    else if strings.HasSuffix cmdLine "&" then runBackground cmdLine
    else if strings.Contains cmdLine ">" || strings.Contains cmdLine "<"
    then executeRedirectedCommand cmdLine
    else runExternal cmd (tail args).

(** The debugging line and the prompt go to the display only. *)
Definition handleCommand (fuel : nat) (cmdLine : string) : M unit :=
  let cmdLine := strings.TrimSpace cmdLine in
  if String.eqb cmdLine "" then ret tt
  else
    modify (fun s => set_history (history s ++ [cmdLine]) s) ;;
    cmdLine <- substituteCommand fuel cmdLine ;;
    r <- call (CExpandEnv cmdLine) ;;
    dispatch (r_out r).

(** *** The session *)

(** The Enter key submits the trimmed input and empties it; between two
    submissions time passes and the timers of the cache run. *)
Inductive Event : Type :=
| Submit (fuel : nat) (line : string)
| Elapse (dt : Z).

Definition step (ev : Event) : M unit :=
  match ev with
  | Submit fuel line =>
      modify (set_input "") ;;
      handleCommand fuel (strings.TrimSpace line)
  | Elapse dt => elapse dt
  end.

Definition run (evs : list Event) : M unit := forM_ evs step.

(** *** Loading the saved aliases and variables *)







(** *** The keys of the input line (the input capture of main)

    A rune is one byte here (ASCII).  The Tab key asks the completer of
    the readline library and is not modelled. *)










(** *** Notions used in the statements *)

(** What is left of executeRedirectedCommand once the line is cut. *)
Definition redirectedAs (argv : list string) (redirectOut redirectIn : string) : M unit :=
  bind (index0 argv) (fun name =>
    if String.eqb redirectOut "" then withInput redirectIn name (Command argv)
    else
      bind (call (CCreate redirectOut)) (fun r =>
        if negb (r_ok r)
        then Fprint ("Error creating file " +:+ redirectOut +:+ ": " +:+ r_err r +:+ nl)
        else bind (withInput redirectIn name
                     (with_Stdout (SFile redirectOut) (Command argv)))
               (fun _ => bind (call (CClose redirectOut)) (fun _ => ret tt)))).

(** A command run under its own name: as a builtin if it is one, else
    looked up in the cache and in PATH. *)
Definition runResolved (cmd : string) (args : list string) : M unit :=
  if isBuiltin cmd then executeBuiltinCommand cmd args
  else runExternal cmd args.

End Shell.

(** ** Two concrete systems, for examples *)

Definition noReply : Reply := mkReply false "" "no" OtherError 0 "" [].

(** Expansion leaves the line as it is, every other call fails. *)
Definition bareAnswer (_ : list Call) (c : Call) : Reply :=
  match c with
  | CExpandEnv s => mkReply true s "" OtherError 0 "" []
  | _ => noReply
  end.

Definition bareSystem : System :=
  mkSystem unix ":" (fun dir name => dir +:+ "/" +:+ name) bareAnswer.

(** Processes start and run, [/bin/date] and [/bin/ls] exist, files open. *)
Definition liveAnswer (log : list Call) (c : Call) : Reply :=
  match c with
  | CExpandEnv s => mkReply true s "" OtherError 0 "" []
  | CGetenv _ => mkReply true "/usr/bin:/bin" "" OtherError 0 "" []
  | CStat path =>
      mkReply (String.eqb path "/bin/date" || String.eqb path "/bin/ls")
        "" "no such file" NotExistError 0 "" []
  | CShOutput subCmd =>
      if String.eqb subCmd "false" then noReply
      else mkReply true ("out" +:+ nl) "" OtherError 0 "" []
  | CStart _ => mkReply true "" "" OtherError (100 + Z.of_nat (length log)) "" []
  | _ => mkReply true "" "" OtherError 0 "" []
  end.

Definition liveSystem : System :=
  mkSystem unix ":" (fun dir name => dir +:+ "/" +:+ name) liveAnswer.

(** A shell with one background job. *)
Definition oneJob : Shell :=
  set_jobs [mkJob (Command ["sleep"; "9"]) 4242] initShell.

(** A shell with the alias [a=date]; [date] is an alias as well. *)
Definition aliased : Shell :=
  set_aliases (<["date" := "ls"]> {["a" := "date"]}) initShell.

(** ** Notions used in the statements *)

(** The tokens of a pipeline stage. *)
Definition stageArgs (stage : string) : list string :=
  strings.Fields (strings.TrimSpace stage).

(** The pipeline of a line: the wired commands of its stages. *)
Definition pipelineOf (cmdLine : string) : list Cmd :=
  let cmds := Command <$> (stageArgs <$> strings.Split cmdLine "|") in
  wireStages (length cmds) 0 cmds.








(** From [s] to [s'] the job table has only grown, at its end. *)
Definition jobsGrow (s s' : Shell) : Prop := exists more, jobs s' = jobs s ++ more.

(** The listing of [jobs]: every job on a line of its own, numbered from
    [i], as running. *)
Fixpoint jobsListing (i : Z) (js : list Job) : string :=
  match js with
  | [] => ""
  | job :: js' =>
      "[" +:+ fmt_d i +:+ "]+  " +:+ fmt_d (job_pid job) +:+ " Running    "
      +:+ strings.Join (Args (job_cmd job)) " " +:+ nl +:+ jobsListing (i + 1) js'
  end.


(** The timers and the cache agree: a name is cached exactly when one
    timer is pending for it, and every pending timer is due within the
    expiration time. *)
Definition cacheInv (s : Shell) : Prop :=
  NoDup (timers s).*2
  /\ (forall k, is_Some (commandCache s !! k) <-> k ∈ (timers s).*2)
  /\ (forall d k, (d, k) ∈ timers s -> clock s < d <= clock s + cacheExpiration).

(** From [s] to [s'] no time has passed, and the cache and its timers
    have only grown. *)
Definition cacheGrows (s s' : Shell) : Prop :=
  clock s' = clock s
  /\ (cacheInv s -> cacheInv s')
  /\ (forall k v, commandCache s !! k = Some v -> commandCache s' !! k = Some v)
  /\ (forall t, t ∈ timers s -> t ∈ timers s').


(** * Properties *)

(** ** Strings *)

Section StringFacts.

Import strings.

Lemma app_nil_l_s (b : string) : "" +:+ b = b.
Proof. reflexivity. Qed.

Lemma app_cons_s (c : ascii) (a b : string) :
  String c a +:+ b = String c (a +:+ b).
Proof. reflexivity. Qed.

Lemma app_assoc_s (a b c : string) : (a +:+ b) +:+ c = a +:+ (b +:+ c).
Proof.
  induction a as [|x a IH]; [reflexivity|].
  rewrite !app_cons_s. now rewrite IH.
Qed.

Lemma app_nil_r_s (a : string) : a +:+ "" = a.
Proof.
  induction a as [|x a IH]; [reflexivity|].
  rewrite app_cons_s. now rewrite IH.
Qed.

Lemma len_app (a b : string) : len (a +:+ b) = (len a + len b)%nat.
Proof.
  induction a as [|x a IH]; [reflexivity|].
  rewrite app_cons_s. simpl. now rewrite <- IH.
Qed.

Lemma drop_app_len (a b : string) : drop (len a) (a +:+ b) = b.
Proof.
  induction a as [|x a IH]; [reflexivity|].
  rewrite app_cons_s. simpl. exact IH.
Qed.

Lemma take_app_len (a b : string) : take (len a) (a +:+ b) = a.
Proof.
  induction a as [|x a IH]; [reflexivity|].
  rewrite app_cons_s. simpl. now rewrite IH.
Qed.

Lemma drop_app_le (n : nat) (a b : string) :
  (n <= len a)%nat -> drop n (a +:+ b) = drop n a +:+ b.
Proof.
  revert n; induction a as [|x a IH]; intros [|n] Hn;
    rewrite ?app_cons_s, ?app_nil_l_s; simpl in *;
    try reflexivity; try lia.
  apply IH; lia.
Qed.

Lemma take_app_le (n : nat) (a b : string) :
  (n <= len a)%nat -> take n (a +:+ b) = take n a.
Proof.
  revert n; induction a as [|x a IH]; intros [|n] Hn;
    rewrite ?app_cons_s, ?app_nil_l_s; simpl in *;
    try reflexivity; try lia.
  rewrite IH; [reflexivity | lia].
Qed.


Lemma drop_drop (m n : nat) (s : string) : drop n (drop m s) = drop (m + n) s.
Proof.
  revert s; induction m as [|m IH]; intros s; simpl; [reflexivity|].
  destruct s as [|c s]; [now destruct n | apply IH].
Qed.

Lemma take_drop_id (n : nat) (s : string) : take n s +:+ drop n s = s.
Proof.
  revert s; induction n as [|n IH]; intros [|c s]; simpl; try reflexivity.
  rewrite app_cons_s. now rewrite IH.
Qed.

Lemma drop_nil (n : nat) : drop n "" = "".
Proof. now destruct n. Qed.

Lemma drop_ge_len (n : nat) (s : string) : (len s <= n)%nat -> drop n s = "".
Proof.
  revert s; induction n as [|n IH]; intros [|c s] Hn; simpl in *;
    try reflexivity; try lia.
  apply IH; lia.
Qed.

(** *** [index] finds the first position at which the pattern starts. *)

Lemma index_nil (sub : string) :
  index "" sub = if HasPrefix "" sub then Some O else None.
Proof. reflexivity. Qed.

Lemma index_cons (c : ascii) (s sub : string) :
  index (String c s) sub
  = if HasPrefix (String c s) sub then Some O else S <$> index s sub.
Proof. reflexivity. Qed.


Lemma index_Some_first (s sub : string) (n k : nat) :
  index s sub = Some n -> (k < n)%nat -> HasPrefix (drop k s) sub = false.
Proof.
  revert n k; induction s as [|c s IH]; intros n k.
  - rewrite index_nil. destruct (HasPrefix "" sub) eqn:E; [|discriminate].
    intros [= <-]; lia.
  - rewrite index_cons. destruct (HasPrefix (String c s) sub) eqn:E.
    + intros [= <-]; lia.
    + destruct (index s sub) as [j|] eqn:Ej; [|discriminate].
      intros [= <-] Hk. destruct k as [|k]; [exact E|].
      change (drop (S k) (String c s)) with (drop k s).
      apply (IH j); [reflexivity | lia].
Qed.

Lemma index_None_all (s sub : string) (k : nat) :
  index s sub = None -> HasPrefix (drop k s) sub = false.
Proof.
  revert k; induction s as [|c s IH]; intros k.
  - rewrite index_nil. destruct (HasPrefix "" sub) eqn:E; [discriminate|].
    intros _. now rewrite drop_nil.
  - rewrite index_cons. destruct (HasPrefix (String c s) sub) eqn:E; [discriminate|].
    destruct (index s sub) eqn:Ej; [discriminate|].
    intros _. destruct k as [|k]; [exact E|].
    change (drop (S k) (String c s)) with (drop k s). now apply IH.
Qed.

Lemma index_found (s sub : string) (n : nat) :
  HasPrefix (drop n s) sub = true ->
  (forall k, (k < n)%nat -> HasPrefix (drop k s) sub = false) ->
  index s sub = Some n.
Proof.
  revert s; induction n as [|n IH]; intros s Hn Hfirst.
  - change (drop 0 s) with s in Hn.
    destruct s; [rewrite index_nil | rewrite index_cons]; now rewrite Hn.
  - pose proof (Hfirst O ltac:(lia)) as H0. change (drop 0 s) with s in H0.
    destruct s as [|c s].
    + rewrite drop_nil in Hn. congruence.
    + rewrite index_cons, H0.
      change (drop (S n) (String c s)) with (drop n s) in Hn.
      rewrite (IH s Hn); [reflexivity|].
      intros k Hk. apply (Hfirst (S k)). lia.
Qed.

Lemma index_absent (s sub : string) :
  (forall k, HasPrefix (drop k s) sub = false) -> index s sub = None.
Proof.
  induction s as [|c s IH]; intros Hall.
  - pose proof (Hall O) as H0. change (drop 0 "") with "" in H0.
    now rewrite index_nil, H0.
  - pose proof (Hall O) as H0. change (drop 0 (String c s)) with (String c s) in H0.
    rewrite index_cons, H0.
    rewrite IH; [reflexivity|]. intros k. apply (Hall (S k)).
Qed.

Lemma Index_absent (s sub : string) :
  Index s sub = -1 <-> index s sub = None.
Proof. unfold Index. destruct (index s sub); split; intros; [lia|discriminate|reflexivity|reflexivity]. Qed.

Lemma Index_at (s sub : string) (n : nat) :
  index s sub = Some n -> Index s sub = Z.of_nat n.
Proof. unfold Index. now intros ->. Qed.

Lemma Contains_false (s sub : string) :
  Contains s sub = false <-> index s sub = None.
Proof.
  unfold Contains, Index. destruct (index s sub); split; intros H;
    try reflexivity; try discriminate.
  apply Z.leb_gt in H. lia.
Qed.

Lemma Contains_true (s sub : string) :
  Contains s sub = true <-> exists n, index s sub = Some n.
Proof.
  unfold Contains, Index. destruct (index s sub) as [n|]; split.
  - eauto.
  - intros _. apply Z.leb_le. lia.
  - discriminate.
  - intros [n [=]].
Qed.

End StringFacts.

(** ** Command substitution *)

Section Substitution.

Import strings.

Variable sys : System.

Lemma len_drop (n : nat) (s : string) : len (drop n s) = (len s - n)%nat.
Proof.
  revert s; induction n as [|n IH]; intros [|c s]; simpl; auto with arith.
Qed.

(** A marker that starts inside [t] is not completed by what follows. *)
Lemma marker_not_across (t rest : string) :
  t <> "" -> HasPrefix t "$(" = false ->
  HasPrefix (t +:+ "$(" +:+ rest) "$(" = false.
Proof.
  destruct t as [|c [|d t]]; intros Ht H.
  - congruence.
  - rewrite app_cons_s, app_nil_l_s.
    change (HasPrefix (String c ("$(" +:+ rest)) "$(")
      with (Ascii.eqb "$" c && false).
    apply andb_false_r.
  - rewrite !app_cons_s. exact H.
Qed.

Lemma marker_first (pre rest : string) :
  Contains pre "$(" = false ->
  index (pre +:+ "$(" +:+ rest) "$(" = Some (len pre).
Proof.
  intros Hpre. apply Contains_false in Hpre. apply index_found.
  - now rewrite drop_app_len.
  - intros k Hk. rewrite drop_app_le by lia.
    apply marker_not_across.
    + intros E. pose proof (len_drop k pre) as Hl. rewrite E in Hl.
      simpl in Hl. lia.
    + now apply index_None_all.
Qed.



Lemma substituteCommand_unfold (fuel : nat) (cmdLine : string) :
  substituteCommand sys (S fuel) cmdLine
  = if Index cmdLine "$(" =? -1 then ret cmdLine
    else if Index (drop (Z.to_nat (Index cmdLine "$(")) cmdLine) ")" =? -1
    then ret cmdLine
    else
      bind (call sys (CShOutput
              (slice (Z.to_nat (Index cmdLine "$(" + 2))
                 (Z.to_nat (Index (drop (Z.to_nat (Index cmdLine "$(")) cmdLine) ")"
                            + Index cmdLine "$(")) cmdLine)))
        (fun r =>
           if r_ok r
           then substituteCommand sys fuel
                  (take (Z.to_nat (Index cmdLine "$(")) cmdLine
                   +:+ TrimSpace (r_out r)
                   +:+ drop (Z.to_nat
                         (Index (drop (Z.to_nat (Index cmdLine "$(")) cmdLine) ")"
                          + Index cmdLine "$(" + 1)) cmdLine)
           else substituteCommand sys fuel cmdLine).
Proof. reflexivity. Qed.



Lemma HasPrefix_byte_app (t z : string) (c : ascii) :
  t <> "" -> HasPrefix (t +:+ z) (String c "") = HasPrefix t (String c "").
Proof. destruct t; [congruence | reflexivity]. Qed.

Lemma close_at (cmd post : string) :
  Contains cmd ")" = false ->
  index ("$(" +:+ cmd +:+ ")" +:+ post) ")" = Some (2 + len cmd)%nat.
Proof.
  intros Hcmd. apply Contains_false in Hcmd. apply index_found.
  - change (drop (2 + len cmd) ("$(" +:+ cmd +:+ ")" +:+ post))
      with (drop (len cmd) (cmd +:+ ")" +:+ post)).
    now rewrite drop_app_len.
  - intros [|[|k]] Hk; [reflexivity | reflexivity |].
    change (drop (S (S k)) ("$(" +:+ cmd +:+ ")" +:+ post))
      with (drop k (cmd +:+ ")" +:+ post)).
    rewrite drop_app_le by lia. rewrite HasPrefix_byte_app.
    + now apply index_None_all.
    + intros E. pose proof (len_drop k cmd) as Hl. rewrite E in Hl.
      simpl in Hl. lia.
Qed.

(** One turn of the loop on a line whose first marker is [$(cmd)]. *)
Lemma substituteCommand_turn (pre cmd post : string) (fuel : nat) (s : Shell) :
  Contains pre "$(" = false -> Contains cmd ")" = false ->
  let line := pre +:+ "$(" +:+ cmd +:+ ")" +:+ post in
  let r := answer sys (log s) (CShOutput cmd) in
  substituteCommand sys (S fuel) line s
  = substituteCommand sys fuel
      (if r_ok r then pre +:+ TrimSpace (r_out r) +:+ post else line)
      (set_log (log s ++ [CShOutput cmd]) s).
Proof.
  intros Hpre Hcmd line r.
  assert (Hi : Index line "$(" = Z.of_nat (len pre))
    by exact (Index_at _ _ _ (marker_first pre _ Hpre)).
  assert (Hd : drop (len pre) line = "$(" +:+ cmd +:+ ")" +:+ post)
    by apply drop_app_len.
  assert (He : Index (drop (len pre) line) ")" = Z.of_nat (2 + len cmd))
    by (rewrite Hd; exact (Index_at _ _ _ (close_at cmd post Hcmd))).
  assert (Hsub : slice (len pre + 2) (len pre + 2 + len cmd) line = cmd).
  { unfold slice.
    replace (len pre + 2 + len cmd - (len pre + 2))%nat with (len cmd) by lia.
    rewrite <- drop_drop, Hd.
    change (drop 2 ("$(" +:+ cmd +:+ ")" +:+ post)) with (cmd +:+ ")" +:+ post).
    apply take_app_len. }
  assert (Htl : drop (len pre + (2 + (len cmd + 1))) line = post).
  { rewrite <- drop_drop, Hd.
    change (drop (2 + (len cmd + 1)) ("$(" +:+ cmd +:+ ")" +:+ post))
      with (drop (len cmd + 1) (cmd +:+ ")" +:+ post)).
    rewrite <- drop_drop, drop_app_len. reflexivity. }
  assert (Hhd : take (len pre) line = pre) by apply take_app_len.
  clearbody line.
  rewrite substituteCommand_unfold, !Hi, !Nat2Z.id, !He.
  destruct (Z.eqb_spec (Z.of_nat (len pre)) (-1)) as [E|_]; [lia|].
  destruct (Z.eqb_spec (Z.of_nat (2 + len cmd)) (-1)) as [E|_]; [lia|].
  replace (Z.to_nat (Z.of_nat (len pre) + 2)) with (len pre + 2)%nat by lia.
  replace (Z.to_nat (Z.of_nat (2 + len cmd) + Z.of_nat (len pre)))
    with (len pre + 2 + len cmd)%nat by lia.
  replace (Z.to_nat (Z.of_nat (2 + len cmd) + Z.of_nat (len pre) + 1))
    with (len pre + (2 + (len cmd + 1)))%nat by lia.
  rewrite Hsub, Htl, Hhd.
  unfold bind, call. fold r. now destruct (r_ok r).
Qed.

(** While the command of the first marker fails the loop goes round on
    the same line: no amount of fuel makes it return. *)
Lemma substituteCommand_failing (pre cmd post : string) :
  Contains pre "$(" = false -> Contains cmd ")" = false ->
  (forall calls, r_ok (answer sys calls (CShOutput cmd)) = false) ->
  forall (fuel : nat) (s : Shell),
    substituteCommand sys fuel (pre +:+ "$(" +:+ cmd +:+ ")" +:+ post) s
    = OutOfFuel (set_log (log s ++ replicate fuel (CShOutput cmd)) s).
Proof.
  intros Hpre Hcmd Hfail. induction fuel as [|fuel IH]; intros s.
  - simpl. unfold outOfFuel. rewrite app_nil_r. now destruct s.
  - rewrite substituteCommand_turn by assumption.
    rewrite Hfail, IH. f_equal. destruct s; unfold set_log; simpl.
    now rewrite <- app_assoc.
Qed.

End Substitution.

(** C1 (the code departs from it): a substituted command that fails leaves
    the marker in place, but substituteCommand does not return: the loop
    finds the same marker again and runs the same command again, once for
    every unit of fuel, and is out of fuel whatever the fuel. *)
Theorem substituteCommand_failure_loops (sys : System) (pre cmd post : string) :
  strings.Contains pre "$(" = false -> strings.Contains cmd ")" = false ->
  (forall calls, r_ok (answer sys calls (CShOutput cmd)) = false) ->
  forall (fuel : nat) (s : Shell),
    substituteCommand sys fuel (pre +:+ "$(" +:+ cmd +:+ ")" +:+ post) s
    = OutOfFuel (set_log (log s ++ replicate fuel (CShOutput cmd)) s).
Proof. exact (substituteCommand_failing sys pre cmd post). Qed.

Lemma substituteCommand_failure_loops_witness :
  substituteCommand liveSystem 1000 "echo $(false) done" initShell
  = OutOfFuel (set_log (replicate 1000 (CShOutput "false")) initShell).
Proof.
  apply (substituteCommand_failure_loops liveSystem "echo " "false" " done");
    reflexivity.
Defined.




(** ** Shell customization *)

Ltac settle_settings :=
  eexists; split; [reflexivity|];
  repeat match goal with
         | |- _ /\ _ => split
         | |- _ -> _ => intro
         | |- forall _, _ => intro
         end;
  simplify_eq/=; try reflexivity; try lia; try congruence;
  try match goal with
      | H : forall n, Some ?a = Some n -> _ |- _ =>
          exfalso; apply (H a eq_refl); lia
      end.

(** C9: [shell <option> <value...>] checks the value of bg-opacity (an
    integer from 0 to 100), text-size (a positive integer) and text-bold
    (true or false); a value that fails the check is reported and leaves the
    setting as it was, and a setting other than the one named is never
    changed. *)
Theorem handleShellCustomization_validates
    (option v : string) (vs : list string) (s : Shell) :
  let value := strings.Join (v :: vs) " " in
  exists s', handleShellCustomization (option :: v :: vs) s = Ret tt s' /\
    (option = "bg-opacity" ->
       (forall n, strconv.Atoi value = Some n -> 0 <= n <= 100 ->
          shellBgOpacity s' = n) /\
       ((forall n, strconv.Atoi value = Some n -> ~ 0 <= n <= 100) ->
          shellBgOpacity s' = shellBgOpacity s /\
          writer s' = writer s +:+
            "Invalid opacity value. Please enter a value between 0 and 100." +:+ nl)) /\
    (option = "text-size" ->
       (forall n, strconv.Atoi value = Some n -> 0 < n -> shellTextSize s' = n) /\
       ((forall n, strconv.Atoi value = Some n -> ~ 0 < n) ->
          shellTextSize s' = shellTextSize s /\
          writer s' = writer s +:+
            "Invalid text size. Please enter a positive integer." +:+ nl)) /\
    (option = "text-bold" ->
       (value = "true" -> shellTextBold s' = true) /\
       (value = "false" -> shellTextBold s' = false) /\
       (value <> "true" -> value <> "false" ->
          shellTextBold s' = shellTextBold s /\
          writer s' = writer s +:+
            "Invalid value for text-bold. Use true or false." +:+ nl)) /\
    (option <> "bg-opacity" -> shellBgOpacity s' = shellBgOpacity s) /\
    (option <> "text-size" -> shellTextSize s' = shellTextSize s) /\
    (option <> "text-color" -> shellTextColor s' = shellTextColor s) /\
    (option <> "text-bold" -> shellTextBold s' = shellTextBold s) /\
    (option <> "prompt-style" -> shellPromptStyle s' = shellPromptStyle s).
Proof.
  intros value. unfold handleShellCustomization. fold value.
  destruct (String.eqb_spec option "bg-opacity") as [->|Hbg].
  { destruct (strconv.Atoi value) as [n|] eqn:En; [|settle_settings].
    destruct (Z.leb_spec 0 n), (Z.leb_spec n 100); settle_settings. }
  destruct (String.eqb_spec option "text-size") as [->|Hsz].
  { destruct (strconv.Atoi value) as [n|] eqn:En; [|settle_settings].
    destruct (Z.ltb_spec 0 n); settle_settings. }
  destruct (String.eqb_spec option "text-color") as [->|Hcol];
    [settle_settings|].
  destruct (String.eqb_spec option "text-bold") as [->|Hbold].
  { destruct (String.eqb_spec value "true") as [Ht|Ht]; [settle_settings|].
    destruct (String.eqb_spec value "false") as [Hf|Hf]; settle_settings. }
  destruct (String.eqb_spec option "prompt-style") as [->|Hps];
    settle_settings.
Qed.

Lemma handleShellCustomization_validates_witness :
  exists s', handleShellCustomization ["bg-opacity"; "101"] initShell = Ret tt s' /\
             shellBgOpacity s' = 100 /\ shellTextSize s' = 12.
Proof.
  destruct (handleShellCustomization_validates "bg-opacity" "101" [] initShell)
    as (s' & Hrun & Hbg & _ & _ & _ & Hsz & _).
  exists s'. split; [exact Hrun|]. split.
  - apply (proj2 (Hbg eq_refl)). intros n Hn. vm_compute in Hn.
    injection Hn as <-. lia.
  - apply Hsz. discriminate.
Defined.

(** ** Job control *)

Lemma validJob_Some (a : option Z) (js : list Job) (N : Z) :
  validJob a js = Some N <-> a = Some N /\ 1 <= N <= Z.of_nat (length js).
Proof.
  unfold validJob. destruct a as [n|]; [|split; [discriminate | intros [[=] _]]].
  destruct (Z.ltb_spec 0 n), (Z.leb_spec n (Z.of_nat (length js))); simpl;
    split; try discriminate;
    try (intros [= <-]; split; [reflexivity | lia]);
    try (intros [[= <-] ?]; first [reflexivity | lia]).
Qed.

Lemma validJob_None (a : option Z) (js : list Job) :
  validJob a js = None <->
  forall N, a = Some N -> ~ 1 <= N <= Z.of_nat (length js).
Proof.
  split.
  - intros Hnone N Ha Hrange.
    assert (validJob a js = Some N) by now apply validJob_Some.
    congruence.
  - intros Hall. destruct (validJob a js) as [N|] eqn:E; [|reflexivity].
    apply validJob_Some in E as [Ha Hrange]. now destruct (Hall N Ha).
Qed.

(** C5 (the code departs from it): [bg N].  When [N] is an integer from 1
    to the number of jobs the job is fetched, but the function that is
    called is the placeholder of main.go, on every system: the output is
    the failure with its fixed "not supported" error and nothing is asked
    of the operating system, so no continue signal is sent to the process
    of job [N].  Otherwise the output is [bg: N: no such job], and nothing
    is asked of the operating system either. *)
Theorem bg_sends_no_signal (sys : System) (a : string) (rest : list string) (s : Shell) :
  (forall N, strconv.Atoi a = Some N -> 1 <= N <= Z.of_nat (length (jobs s)) ->
     executeBuiltinCommand sys "bg" (a :: rest) s
     = Ret tt (set_writer
                 (writer s +:+ "Failed to send continue signal: "
                  +:+ "SIGCONT not supported on Windows" +:+ nl) s)) /\
  ((forall N, strconv.Atoi a = Some N -> ~ 1 <= N <= Z.of_nat (length (jobs s))) ->
     executeBuiltinCommand sys "bg" (a :: rest) s
     = Ret tt (set_writer (writer s +:+ "bg: " +:+ a +:+ ": no such job" +:+ nl) s)).
Proof.
  change (executeBuiltinCommand sys "bg" (a :: rest)) with (builtin_bg (a :: rest)).
  unfold builtin_bg, bind, gets. split.
  - intros N Ha Hrange.
    rewrite (proj2 (validJob_Some _ _ _) (conj Ha Hrange)).
    destruct (lookup_lt_is_Some_2 (jobs s) (Z.to_nat (N - 1)) ltac:(lia)) as [job Hjob].
    unfold jobAt, bind, gets. rewrite Hjob. reflexivity.
  - intros Hall. now rewrite (proj2 (validJob_None _ _) Hall).
Qed.

Lemma bg_sends_no_signal_witness :
  executeBuiltinCommand liveSystem "bg" ["1"] oneJob
  = Ret tt (set_writer ("Failed to send continue signal: "
                        +:+ "SIGCONT not supported on Windows" +:+ nl) oneJob)
  /\ executeBuiltinCommand liveSystem "bg" ["2"] oneJob
     = Ret tt (set_writer ("bg: 2: no such job" +:+ nl) oneJob).
Proof.
  split.
  - apply (proj1 (bg_sends_no_signal liveSystem "1" [] oneJob) 1 eq_refl).
    simpl. lia.
  - apply (proj2 (bg_sends_no_signal liveSystem "2" [] oneJob)).
    intros N HN. vm_compute in HN. injection HN as <-. simpl. lia.
Defined.

(** ** Running a computation *)

Lemma bind_Ret {A B} (m : M A) (k : A -> M B) (s s' : Shell) (a : A) :
  m s = Ret a s' -> bind m k s = k a s'.
Proof. unfold bind. now intros ->. Qed.

Lemma bind_ret_l {A B} (a : A) (k : A -> M B) (s : Shell) :
  bind (ret a) k s = k a s.
Proof. reflexivity. Qed.

Lemma bind_Panic {A B} (m : M A) (k : A -> M B) (s s' : Shell) :
  m s = Panic s' -> bind m k s = Panic s'.
Proof. unfold bind. now intros ->. Qed.

Lemma final_bind {A B} (m : M A) (k : A -> M B) (s : Shell) :
  final (bind m k s)
  = match m s with
    | Ret a s' => final (k a s')
    | r => final r
    end.
Proof. unfold bind. now destruct (m s). Qed.

(** ** Piped execution *)

Section Pipeline.

Import strings.

Variable sys : System.

Lemma set_log_id (s : Shell) : set_log (log s) s = s.
Proof. now destruct s. Qed.

Lemma set_log_twice (l l' : list Call) (s : Shell) :
  set_log l' (set_log l s) = set_log l' s.
Proof. reflexivity. Qed.

Lemma forM_calls {A} (f : A -> Call) (l : list A) (s : Shell) :
  forM_ l (fun x => bind (call sys (f x)) (fun _ => ret tt)) s
  = Ret tt (set_log (log s ++ (f <$> l)) s).
Proof.
  revert s; induction l as [|x l IH]; intros s; simpl.
  - unfold ret. now rewrite app_nil_r, set_log_id.
  - unfold bind at 1 2. unfold call, ret. rewrite IH. simpl.
    now rewrite <- app_assoc.
Qed.

Lemma buildStages_ok (commands : list string) (s : Shell) :
  Forall (fun stage => stageArgs stage <> []) commands ->
  buildStages commands s = Ret (Command <$> (stageArgs <$> commands)) s.
Proof.
  induction 1 as [|stage commands Hstage _ IH]; [reflexivity|].
  simpl. unfold bind at 1. fold (stageArgs stage).
  destruct (stageArgs stage) as [|a args] eqn:E; [congruence|].
  simpl. unfold bind. now rewrite IH.
Qed.

Lemma buildStages_panics (commands : list string) (s : Shell) :
  Exists (fun stage => stageArgs stage = []) commands ->
  buildStages commands s = Panic s.
Proof.
  induction 1 as [stage commands Hstage|stage commands _ IH]; simpl;
    unfold bind at 1; fold (stageArgs stage).
  - now rewrite Hstage.
  - destruct (stageArgs stage); [reflexivity|]. simpl.
    unfold bind. now rewrite IH.
Qed.

Lemma Args_wireStage (n i : nat) (cmd : Cmd) : Args (wireStage n i cmd) = Args cmd.
Proof. unfold wireStage. now destruct (i =? 0)%nat, (i =? n - 1)%nat. Qed.

Lemma Args_wireStages (n i : nat) (cmds : list Cmd) :
  Args <$> wireStages n i cmds = Args <$> cmds.
Proof.
  revert i; induction cmds as [|cmd cmds IH]; intros i; [reflexivity|].
  cbn [wireStages]. rewrite !fmap_cons. now rewrite Args_wireStage, IH.
Qed.

Lemma executePipedCommands_ok (cmdLine : string) (s : Shell) :
  Forall (fun stage => stageArgs stage <> []) (Split cmdLine "|") ->
  executePipedCommands sys cmdLine s
  = Ret tt (set_log (log s ++ (CStart <$> pipelineOf cmdLine)
                            ++ (CWait <$> pipelineOf cmdLine)) s).
Proof.
  intros Hall. unfold executePipedCommands.
  rewrite (bind_Ret _ _ _ _ _ (buildStages_ok _ _ Hall)).
  fold (pipelineOf cmdLine).
  rewrite (bind_Ret _ _ _ _ _ (forM_calls CStart _ _)).
  rewrite forM_calls. simpl. now rewrite <- app_assoc.
Qed.

Lemma executePipedCommands_panics (cmdLine : string) (s : Shell) :
  Exists (fun stage => stageArgs stage = []) (Split cmdLine "|") ->
  executePipedCommands sys cmdLine s = Panic s.
Proof.
  intros Hex. unfold executePipedCommands.
  apply bind_Panic. now apply buildStages_panics.
Qed.

Lemma dispatch_piped (cmdLine : string) :
  HasSuffix cmdLine backslash = false -> Contains cmdLine "|" = true ->
  dispatch sys cmdLine = executePipedCommands sys cmdLine.
Proof. intros Hc Hp. unfold dispatch. now rewrite Hc, Hp. Qed.

End Pipeline.

(** C2: a line that contains [|] (and is not held back as a continuation
    line) is run by executePipedCommands whatever else it contains.  For a
    line of ASCII bytes in which every stage has a token, all that is
    asked of the operating system is to start and to await one process for
    each stage, whose arguments are the white-space tokens of the stage:
    [>], [<] and [&] are arguments like any other, no file is opened. *)
Theorem pipe_takes_precedence (sys : System) (cmdLine : string) (s : Shell) :
  strings.HasSuffix cmdLine backslash = false ->
  strings.Contains cmdLine "|" = true ->
  dispatch sys cmdLine s = executePipedCommands sys cmdLine s /\
  (strings.isASCII cmdLine = true ->
   Args <$> pipelineOf cmdLine = stageArgs <$> strings.Split cmdLine "|" /\
   (Forall (fun stage => stageArgs stage <> []) (strings.Split cmdLine "|") ->
    dispatch sys cmdLine s
    = Ret tt (set_log (log s ++ (CStart <$> pipelineOf cmdLine)
                              ++ (CWait <$> pipelineOf cmdLine)) s))).
Proof.
  intros Hc Hp. rewrite (dispatch_piped sys cmdLine Hc Hp).
  split; [reflexivity|]. intros _. split.
  - unfold pipelineOf. rewrite Args_wireStages.
    induction (stageArgs <$> strings.Split cmdLine "|") as [|argv l IH];
      [reflexivity|].
    rewrite !fmap_cons. now rewrite IH.
  - apply executePipedCommands_ok.
Qed.

(** C6: a line in piped mode with a stage that has no token (it ends in
    [|], or contains [||]) panics on [cmdArgs[0]] before any process is
    started: nothing guards the empty stage. *)
Theorem empty_stage_panics (sys : System) (cmdLine : string) (s : Shell) :
  strings.HasSuffix cmdLine backslash = false ->
  strings.Contains cmdLine "|" = true ->
  Exists (fun stage => strings.Fields (strings.TrimSpace stage) = [])
    (strings.Split cmdLine "|") ->
  dispatch sys cmdLine s = Panic s.
Proof.
  intros Hc Hp Hex. rewrite (dispatch_piped sys cmdLine Hc Hp).
  now apply executePipedCommands_panics.
Qed.

Lemma pipe_takes_precedence_witness :
  dispatch liveSystem "echo hi > f | cat < g &" initShell
  = Ret tt
      (set_log
         [CStart (mkCmd ["echo"; "hi"; ">"; "f"] SNil (SPipe 0) SOsStderr);
          CStart (mkCmd ["cat"; "<"; "g"; "&"] (SPipe 0) SOsStdout SOsStderr);
          CWait (mkCmd ["echo"; "hi"; ">"; "f"] SNil (SPipe 0) SOsStderr);
          CWait (mkCmd ["cat"; "<"; "g"; "&"] (SPipe 0) SOsStdout SOsStderr)]
         initShell).
Proof.
  apply (proj2 (proj2 (pipe_takes_precedence liveSystem
                         "echo hi > f | cat < g &" initShell eq_refl eq_refl)
                  eq_refl)).
  vm_compute. repeat constructor; discriminate.
Defined.

Lemma empty_stage_panics_witness :
  dispatch liveSystem "ls |" initShell = Panic initShell
  /\ dispatch liveSystem "ls || wc" initShell = Panic initShell.
Proof.
  split.
  - apply (empty_stage_panics liveSystem "ls |" initShell eq_refl eq_refl).
    vm_compute. right. left. reflexivity.
  - apply (empty_stage_panics liveSystem "ls || wc" initShell eq_refl eq_refl).
    vm_compute. right. left. reflexivity.
Defined.

(** ** Redirected execution *)

Section Redirection.

Import strings.

Variable sys : System.

Lemma byte_first (before after : string) (c : ascii) :
  Contains before (String c "") = false ->
  index (before +:+ String c "" +:+ after) (String c "") = Some (len before).
Proof.
  intros Hb. apply Contains_false in Hb. apply index_found.
  - rewrite drop_app_len. simpl. now rewrite Ascii.eqb_refl.
  - intros k Hk. rewrite drop_app_le by lia. rewrite HasPrefix_byte_app.
    + now apply index_None_all.
    + intros E. pose proof (len_drop k before) as Hl. rewrite E in Hl.
      simpl in Hl. lia.
Qed.

(** The three parts of a line cut at its first [op]. *)
Lemma cut_at (before after : string) (c : ascii) :
  Contains before (String c "") = false ->
  let line := before +:+ String c "" +:+ after in
  Index line (String c "") = Z.of_nat (len before)
  /\ take (len before) line = before
  /\ drop (len before + 1) line = after.
Proof.
  intros Hb line. split; [|split].
  - exact (Index_at _ _ _ (byte_first before after c Hb)).
  - apply take_app_len.
  - unfold line. rewrite <- drop_drop, drop_app_len. reflexivity.
Qed.

Lemma runRedirected_log (name : string) (cmd : Cmd) (s : Shell) :
  exists s', runRedirected sys name cmd s = Ret tt s'
             /\ log s' = log s ++ [CRun (with_Stderr SWriter cmd)].
Proof.
  unfold runRedirected, Run, bind, call, ret, Fprint, modify. simpl.
  destruct (usesWriter _), (r_ok _); eexists; split; reflexivity.
Qed.

Lemma withInput_none (name : string) (cmd : Cmd) :
  withInput sys "" name cmd = runRedirected sys name cmd.
Proof. reflexivity. Qed.

Lemma withInput_file (target name : string) (cmd : Cmd) (s : Shell) :
  target <> "" ->
  exists s', withInput sys target name cmd s = Ret tt s' /\
    let r := answer sys (log s) (COpen target) in
    if r_ok r
    then log s' = log s ++ [COpen target;
                            CRun (with_Stderr SWriter (with_Stdin (SFile target) cmd));
                            CClose target]
    else log s' = log s ++ [COpen target]
         /\ writer s' = writer s +:+ "Error opening file " +:+ target +:+ ": "
                        +:+ r_err r +:+ nl.
Proof.
  intros Ht. unfold withInput.
  destruct (String.eqb_spec target "") as [E|_]; [congruence|].
  unfold bind at 1. unfold call at 1. simpl.
  destruct (r_ok (answer sys (log s) (COpen target))); simpl.
  - destruct (runRedirected_log name (with_Stdin (SFile target) cmd)
                (set_log (log s ++ [COpen target]) s)) as (s1 & Hrun & Hlog).
    rewrite (bind_Ret _ _ _ _ _ Hrun). unfold bind, call, ret.
    eexists; split; [reflexivity|]. simpl. rewrite Hlog. simpl.
    now rewrite <- !app_assoc.
  - eexists; split; [reflexivity|]. split; reflexivity.
Qed.

Lemma executeRedirectedCommand_out (before after : string) :
  Contains before ">" = false ->
  executeRedirectedCommand sys (before +:+ ">" +:+ after)
  = redirectedAs sys (Fields (TrimSpace before)) (TrimSpace after) "".
Proof.
  intros Hb. destruct (cut_at before after ">" Hb) as (Hidx & Htake & Hdrop).
  unfold executeRedirectedCommand. cbv zeta. rewrite !Hidx.
  destruct (Z.eqb_spec (Z.of_nat (len before)) (-1)) as [E|_]; [lia|].
  cbn [negb]. rewrite Nat2Z.id, Htake.
  replace (Z.to_nat (Z.of_nat (len before) + 1)) with (len before + 1)%nat by lia.
  now rewrite Hdrop.
Qed.

Lemma executeRedirectedCommand_in (before after : string) :
  Contains (before +:+ "<" +:+ after) ">" = false ->
  Contains before "<" = false ->
  executeRedirectedCommand sys (before +:+ "<" +:+ after)
  = redirectedAs sys (Fields (TrimSpace before)) "" (TrimSpace after).
Proof.
  intros Hout Hb. destruct (cut_at before after "<" Hb) as (Hidx & Htake & Hdrop).
  apply Contains_false, Index_absent in Hout.
  unfold executeRedirectedCommand. cbv zeta. rewrite !Hout, !Hidx.
  destruct (Z.eqb_spec (Z.of_nat (len before)) (-1)) as [E|_]; [lia|].
  cbn [negb Z.eqb]. rewrite Nat2Z.id, Htake.
  replace (Z.to_nat (Z.of_nat (len before) + 1)) with (len before + 1)%nat by lia.
  now rewrite Hdrop.
Qed.

(** The output branch: the line is cut at its first [>]. *)
Lemma redirect_output (before after name : string) (args : list string) (s : Shell) :
  Contains before ">" = false ->
  Fields (TrimSpace before) = name :: args ->
  let target := TrimSpace after in
  exists s', executeRedirectedCommand sys (before +:+ ">" +:+ after) s = Ret tt s' /\
    if String.eqb target ""
    then log s' = log s ++ [CRun (mkCmd (name :: args) SNil SNil SWriter)]
    else
      let r := answer sys (log s) (CCreate target) in
      if r_ok r
      then log s' = log s ++ [CCreate target;
                              CRun (mkCmd (name :: args) SNil (SFile target) SWriter);
                              CClose target]
      else log s' = log s ++ [CCreate target]
           /\ writer s' = writer s +:+ "Error creating file " +:+ target +:+ ": "
                          +:+ r_err r +:+ nl.
Proof.
  intros Hb Hargs target.
  rewrite (executeRedirectedCommand_out before after Hb), Hargs.
  fold target. unfold redirectedAs.
  change (index0 (name :: args)) with (@ret string name). rewrite bind_ret_l.
  destruct (String.eqb_spec target "") as [E|Hne].
  - rewrite withInput_none.
    destruct (runRedirected_log name (Command (name :: args)) s) as (s' & Hrun & Hlog).
    exists s'. split; assumption.
  - unfold bind at 1. unfold call at 1. simpl.
    destruct (r_ok (answer sys (log s) (CCreate target))); simpl.
    + rewrite withInput_none.
      destruct (runRedirected_log name
                  (with_Stdout (SFile target) (Command (name :: args)))
                  (set_log (log s ++ [CCreate target]) s)) as (s1 & Hrun & Hlog).
      rewrite (bind_Ret _ _ _ _ _ Hrun). unfold bind, call, ret.
      eexists; split; [reflexivity|]. simpl. rewrite Hlog. simpl.
      now rewrite <- !app_assoc.
    + eexists; split; [reflexivity|]. split; reflexivity.
Qed.

(** The input branch is taken only by a line without any [>]: the line
    is cut at its first [<]. *)
Lemma redirect_input (before after name : string) (args : list string) (s : Shell) :
  Contains (before +:+ "<" +:+ after) ">" = false ->
  Contains before "<" = false ->
  Fields (TrimSpace before) = name :: args ->
  let target := TrimSpace after in
  exists s', executeRedirectedCommand sys (before +:+ "<" +:+ after) s = Ret tt s' /\
    if String.eqb target ""
    then log s' = log s ++ [CRun (mkCmd (name :: args) SNil SNil SWriter)]
    else
      let r := answer sys (log s) (COpen target) in
      if r_ok r
      then log s' = log s ++ [COpen target;
                              CRun (mkCmd (name :: args) (SFile target) SNil SWriter);
                              CClose target]
      else log s' = log s ++ [COpen target]
           /\ writer s' = writer s +:+ "Error opening file " +:+ target +:+ ": "
                          +:+ r_err r +:+ nl.
Proof.
  intros Hout Hb Hargs target.
  rewrite (executeRedirectedCommand_in before after Hout Hb), Hargs.
  fold target. unfold redirectedAs.
  change (index0 (name :: args)) with (@ret string name). rewrite bind_ret_l.
  cbn [String.eqb].
  destruct (String.eqb_spec target "") as [E|Hne].
  - rewrite E, withInput_none.
    destruct (runRedirected_log name (Command (name :: args)) s) as (s' & Hrun & Hlog).
    exists s'. split; assumption.
  - apply (withInput_file target name (Command (name :: args)) s Hne).
Qed.

End Redirection.

(** C7, amended: executeRedirectedCommand recognizes one operator, [>]
    before [<].  A line (of ASCII bytes) is cut at its first [>] if it has
    one, whatever [<] it contains, and only a line without [>] is cut at
    its first [<].  The words before the operator are the command, of which
    there is at least one, and the trimmed text after it is the target.  A
    target that is not empty is created (output) or opened read-only
    (input), connected as the standard output or input of the process, and
    closed after the run; if it cannot be created or opened this is
    reported and nothing is run.  With an empty target no file is opened
    and the command runs unconnected. *)
Theorem redirect_one_operator
    (sys : System) (before after name : string) (args : list string) (s : Shell) :
  strings.isASCII before = true -> strings.isASCII after = true ->
  strings.Fields (strings.TrimSpace before) = name :: args ->
  let target := strings.TrimSpace after in
  (strings.Contains before ">" = false ->
   exists s', executeRedirectedCommand sys (before +:+ ">" +:+ after) s = Ret tt s' /\
     if String.eqb target ""
     then log s' = log s ++ [CRun (mkCmd (name :: args) SNil SNil SWriter)]
     else
       let r := answer sys (log s) (CCreate target) in
       if r_ok r
       then log s' = log s ++ [CCreate target;
                               CRun (mkCmd (name :: args) SNil (SFile target) SWriter);
                               CClose target]
       else log s' = log s ++ [CCreate target]
            /\ writer s' = writer s +:+ "Error creating file " +:+ target +:+ ": "
                           +:+ r_err r +:+ nl) /\
  (strings.Contains (before +:+ "<" +:+ after) ">" = false ->
   strings.Contains before "<" = false ->
   exists s', executeRedirectedCommand sys (before +:+ "<" +:+ after) s = Ret tt s' /\
     if String.eqb target ""
     then log s' = log s ++ [CRun (mkCmd (name :: args) SNil SNil SWriter)]
     else
       let r := answer sys (log s) (COpen target) in
       if r_ok r
       then log s' = log s ++ [COpen target;
                               CRun (mkCmd (name :: args) (SFile target) SNil SWriter);
                               CClose target]
       else log s' = log s ++ [COpen target]
            /\ writer s' = writer s +:+ "Error opening file " +:+ target +:+ ": "
                           +:+ r_err r +:+ nl).
Proof.
  intros _ _ Hargs target. split.
  - intros Hb. now apply redirect_output.
  - intros Hout Hb. now apply redirect_input.
Qed.

Lemma redirect_one_operator_witness :
  (exists s', executeRedirectedCommand liveSystem "sort < in > out" initShell = Ret tt s' /\
     log s' = [CCreate "out";
               CRun (mkCmd ["sort"; "<"; "in"] SNil (SFile "out") SWriter);
               CClose "out"]) /\
  (exists s', executeRedirectedCommand liveSystem "sort < in" initShell = Ret tt s' /\
     log s' = [COpen "in"; CRun (mkCmd ["sort"] (SFile "in") SNil SWriter);
               CClose "in"]).
Proof.
  split.
  - exact (proj1 (redirect_one_operator liveSystem "sort < in " " out" "sort"
                    ["<"; "in"] initShell eq_refl eq_refl eq_refl) eq_refl).
  - exact (proj2 (redirect_one_operator liveSystem "sort " " in" "sort" []
                    initShell eq_refl eq_refl eq_refl) eq_refl eq_refl).
Defined.

(** C7 as stated fails on a line whose target is empty: [date >] is run in
    redirected mode and takes the output branch, but no file is created and
    the standard output of the process is left unconnected.  It also fails
    on a line with nothing before the operator: [> out] is run in
    redirected mode and panics on [cmdArgs[0]], before any file is
    created. *)
Lemma redirect_empty_target_counterexample :
  dispatch liveSystem "date >" initShell
  = executeRedirectedCommand liveSystem "date >" initShell
  /\ strings.Index "date >" ">" = 5
  /\ (exists s', dispatch liveSystem "date >" initShell = Ret tt s'
        /\ log s' = [CRun (mkCmd ["date"] SNil SNil SWriter)]
        /\ forall f, ~ In (CCreate f) (log s'))
  /\ dispatch liveSystem "> out" initShell
     = executeRedirectedCommand liveSystem "> out" initShell
  /\ dispatch liveSystem "> out" initShell = Panic initShell.
Proof.
  split; [reflexivity|]. split; [reflexivity|]. split.
  - eexists. split; [vm_compute; reflexivity|]. split; [reflexivity|].
    intros f [H|[]]. discriminate H.
  - split; [reflexivity | vm_compute; reflexivity].
Qed.

(** ** Alias substitution *)

Section Aliases.

Import strings.

Variable sys : System.

Lemma Split_cons (c sep : ascii) (s : string) :
  Split (String c s) sep
  = if Ascii.eqb c sep then "" :: Split s sep
    else match Split s sep with
         | w :: ws => String c w :: ws
         | [] => [String c ""]
         end.
Proof. reflexivity. Qed.

(** The first piece of a line is its leading token. *)
Lemma Split_leading (a x : string) (sep : ascii) :
  Contains a (String sep "") = false ->
  Split (a +:+ String sep "" +:+ x) sep = a :: Split x sep.
Proof.
  intros Ha. apply Contains_false in Ha.
  induction a as [|c a IH].
  - rewrite app_nil_l_s, app_cons_s, app_nil_l_s, Split_cons.
    now rewrite Ascii.eqb_refl.
  - rewrite index_cons in Ha.
    destruct (HasPrefix (String c a) (String sep "")) eqn:Hc; [discriminate|].
    destruct (index a (String sep "")) eqn:Hi; [discriminate|].
    rewrite app_cons_s, Split_cons, (IH eq_refl).
    simpl in Hc. rewrite andb_true_r in Hc.
    now rewrite Ascii.eqb_sym, Hc.
Qed.

Lemma dispatch_alias (a b x : string) (s : Shell) :
  aliases s !! a = Some b ->
  Contains a " " = false ->
  let cmdLine := a +:+ " " +:+ x in
  HasSuffix cmdLine backslash = false ->
  Contains cmdLine "|" = false ->
  isBuiltin b = true
  \/ (HasSuffix cmdLine "&" = false
      /\ Contains cmdLine ">" = false /\ Contains cmdLine "<" = false) ->
  dispatch sys cmdLine s = runResolved sys b (Split x " ") s.
Proof.
  intros Hal Ha cmdLine Hc Hp Hmode. unfold dispatch, runResolved.
  rewrite Hc, Hp. unfold cmdLine at 1 2. rewrite (Split_leading a x " " Ha).
  change (index0 (a :: Split x " ")) with (@ret string a).
  rewrite bind_ret_l. unfold bind at 1. unfold gets at 1. rewrite Hal.
  cbn [tail]. destruct (isBuiltin b); [reflexivity|].
  destruct Hmode as [[=]|(Hbg & Hout & Hin)].
  now rewrite Hbg, Hout, Hin.
Qed.

End Aliases.

(** C3, amended: with an alias [a=b], a line [a x] without [|] that is run
    as a builtin or in plain external mode runs [b] with the words of [x]
    as its arguments: the leading token alone is replaced, once, and [b] is
    run under its own name even if it is an alias too.  A line with [|] is
    piped with its leading token as it is. *)
Theorem alias_replaces_leading_token (sys : System) (a b x : string) (s : Shell) :
  aliases s !! a = Some b ->
  strings.Contains a " " = false ->
  let cmdLine := a +:+ " " +:+ x in
  strings.HasSuffix cmdLine backslash = false ->
  (strings.Contains cmdLine "|" = false ->
   isBuiltin b = true
   \/ (strings.HasSuffix cmdLine "&" = false
       /\ strings.Contains cmdLine ">" = false
       /\ strings.Contains cmdLine "<" = false) ->
   dispatch sys cmdLine s = runResolved sys b (strings.Split x " ") s) /\
  (strings.Contains cmdLine "|" = true ->
   dispatch sys cmdLine s = executePipedCommands sys cmdLine s).
Proof.
  intros Hal Ha cmdLine Hc. split.
  - intros Hp Hmode. now apply dispatch_alias.
  - intros Hp. now rewrite dispatch_piped.
Qed.

Lemma alias_replaces_leading_token_witness :
  dispatch liveSystem "a +%s" aliased
  = runExternal liveSystem "date" ["+%s"] aliased
  /\ exists s', dispatch liveSystem "a +%s" aliased = Ret tt s'
       /\ log s' = [CGetenv "PATH"; CStat "/usr/bin/date"; CStat "/bin/date";
                    CRun (mkCmd ["/bin/date"; "+%s"] SNil SWriter SWriter)].
Proof.
  assert (H : dispatch liveSystem "a +%s" aliased
              = runResolved liveSystem "date" ["+%s"] aliased).
  { apply (proj1 (alias_replaces_leading_token liveSystem "a" "date" "+%s" aliased
                    eq_refl eq_refl eq_refl) eq_refl).
    right. repeat split; reflexivity. }
  split; [exact H|].
  eexists. split; [rewrite H; vm_compute; reflexivity|]. reflexivity.
Defined.

(** C3 as stated fails in background, redirected and piped mode: with the
    alias [a=date] the lines [a x &], [a x > f] and [a x | cat] run the
    program [a], not [date]. *)
Lemma alias_ignored_counterexample :
  (exists s', dispatch liveSystem "a x &" aliased = Ret tt s'
     /\ log s' = [CStart (mkCmd ["a"; "x"] SNil SWriter SWriter)])
  /\ (exists s', dispatch liveSystem "a x > f" aliased = Ret tt s'
        /\ log s' = [CCreate "f"; CRun (mkCmd ["a"; "x"] SNil (SFile "f") SWriter);
                     CClose "f"])
  /\ (exists s', dispatch liveSystem "a x | cat" aliased = Ret tt s'
        /\ log s' = [CStart (mkCmd ["a"; "x"] SNil (SPipe 0) SOsStderr);
                     CStart (mkCmd ["cat"] (SPipe 0) SOsStdout SOsStderr);
                     CWait (mkCmd ["a"; "x"] SNil (SPipe 0) SOsStderr);
                     CWait (mkCmd ["cat"] (SPipe 0) SOsStdout SOsStderr)])
  /\ dispatch liveSystem "a x &" aliased
     <> runResolved liveSystem "date" (strings.Split "x &" " ") aliased.
Proof.
  split; [|split; [|split]].
  - eexists. split; [vm_compute; reflexivity|]. reflexivity.
  - eexists. split; [vm_compute; reflexivity|]. reflexivity.
  - eexists. split; [vm_compute; reflexivity|]. reflexivity.
  - vm_compute. discriminate.
Qed.

(** ** What a dispatch leaves alone

    A relation [R] between the state before and the state a computation
    stops in, whatever its outcome.  A [Frame] is a preorder that every
    update of the shell respects, except the append to the history and the
    eviction from the cache; an insertion in the cache has to respect it
    only for a name that is not cached, and the list of jobs is only
    appended to. *)

Definition preserves {A} (R : Shell -> Shell -> Prop) (m : M A) : Prop :=
  forall s, R s (final (m s)).

Record Frame (R : Shell -> Shell -> Prop) : Prop := {
  frame_refl : forall s, R s s;
  frame_trans : forall s1 s2 s3, R s1 s2 -> R s2 s3 -> R s1 s3;
  frame_log : forall v s, R s (set_log v s);
  frame_writer : forall v s, R s (set_writer v s);
  frame_aliases : forall v s, R s (set_aliases v s);
  frame_envVars : forall v s, R s (set_envVars v s);
  frame_jobs : forall job s, R s (set_jobs (jobs s ++ [job]) s);
  frame_input : forall v s, R s (set_input v s);
  frame_shellBgOpacity : forall v s, R s (set_shellBgOpacity v s);
  frame_shellTextSize : forall v s, R s (set_shellTextSize v s);
  frame_shellTextColor : forall v s, R s (set_shellTextColor v s);
  frame_shellTextBold : forall v s, R s (set_shellTextBold v s);
  frame_shellPromptStyle : forall v s, R s (set_shellPromptStyle v s);
  frame_cache : forall cmd path s,
    commandCache s !! cmd = None ->
    R s (set_timers (timers s ++ [(clock s + cacheExpiration, cmd)])
           (set_commandCache (<[cmd := path]> (commandCache s)) s))
}.

Section Preserved.

Variable sys : System.
Variable R : Shell -> Shell -> Prop.
Hypothesis HR : Frame R.

Lemma preserves_ret {A} (a : A) : preserves R (ret a).
Proof. intros s. apply (frame_refl R HR). Qed.

Lemma preserves_bind {A B} (m : M A) (k : A -> M B) :
  preserves R m -> (forall a, preserves R (k a)) -> preserves R (bind m k).
Proof.
  intros Hm Hk s. rewrite final_bind. specialize (Hm s).
  destruct (m s) as [a s'| | |]; try exact Hm.
  exact (frame_trans R HR _ _ _ Hm (Hk a s')).
Qed.

Lemma preserves_gets {A} (f : Shell -> A) : preserves R (gets f).
Proof. intros s. apply (frame_refl R HR). Qed.

Lemma preserves_panic {A} : preserves R (@panic A).
Proof. intros s. apply (frame_refl R HR). Qed.

Lemma preserves_outOfFuel {A} : preserves R (@outOfFuel A).
Proof. intros s. apply (frame_refl R HR). Qed.

Lemma preserves_modify (f : Shell -> Shell) :
  (forall s, R s (f s)) -> preserves R (modify f).
Proof. intros Hf s. apply Hf. Qed.

Lemma preserves_call (c : Call) : preserves R (call sys c).
Proof. intros s. apply (frame_log R HR). Qed.

Lemma preserves_os_Exit {A} (code : Z) : preserves R (@os_Exit A code).
Proof. intros s. apply (frame_log R HR). Qed.

Lemma preserves_Fprint (text : string) : preserves R (Fprint text).
Proof. intros s. apply (frame_writer R HR). Qed.

Lemma preserves_forM_ {A} (l : list A) (f : A -> M unit) :
  (forall x, preserves R (f x)) -> preserves R (forM_ l f).
Proof.
  intros Hf. induction l as [|x l IH]; simpl.
  - apply preserves_ret.
  - apply preserves_bind; [apply Hf | intros _; exact IH].
Qed.

Lemma preserves_forI_ {A} (i : Z) (l : list A) (f : Z -> A -> M unit) :
  (forall i x, preserves R (f i x)) -> preserves R (forI_ i l f).
Proof.
  intros Hf. revert i; induction l as [|x l IH]; intros i; simpl.
  - apply preserves_ret.
  - apply preserves_bind; [apply Hf | intros _; apply IH].
Qed.

Lemma preserves_index0 (l : list string) : preserves R (index0 l).
Proof. destruct l; [apply preserves_panic | apply preserves_ret]. Qed.

(** One step through the structure of a computation. *)
Ltac frame_step :=
  lazymatch goal with
  | |- preserves _ (bind _ _) => apply preserves_bind; [|intros ?]
  | |- preserves _ (ret _) => apply preserves_ret
  | |- preserves _ (gets _) => apply preserves_gets
  | |- preserves _ panic => apply preserves_panic
  | |- preserves _ outOfFuel => apply preserves_outOfFuel
  | |- preserves _ (call _ _) => apply preserves_call
  | |- preserves _ (os_Exit _) => apply preserves_os_Exit
  | |- preserves _ (Fprint _) => apply preserves_Fprint
  | |- preserves _ (Fprintln _) => apply preserves_Fprint
  | |- preserves _ (index0 _) => apply preserves_index0
  | |- preserves _ (forM_ _ _) => apply preserves_forM_; intros ?
  | |- preserves _ (forI_ _ _ _) => apply preserves_forI_; intros ? ?
  | |- preserves _ (modify _) =>
      apply preserves_modify; intros ?;
      first [ apply (frame_log R HR) | apply (frame_writer R HR)
            | apply (frame_aliases R HR) | apply (frame_envVars R HR)
            | apply (frame_jobs R HR) | apply (frame_input R HR)
            | apply (frame_shellBgOpacity R HR)
            | apply (frame_shellTextSize R HR)
            | apply (frame_shellTextColor R HR)
            | apply (frame_shellTextBold R HR)
            | apply (frame_shellPromptStyle R HR) ]
  | |- preserves _ (if ?b then _ else _) => destruct b
  | |- preserves _ (match ?x with _ => _ end) => destruct x
  end.

Ltac frame := repeat frame_step.

Lemma preserves_Run (cmd : Cmd) : preserves R (Run sys cmd).
Proof. unfold Run. frame. Qed.

Lemma preserves_executeExternalCommand (path : string) (args : list string) :
  preserves R (executeExternalCommand sys path args).
Proof.
  unfold executeExternalCommand.
  apply preserves_bind; [apply preserves_Run | intros r]. frame.
Qed.

Lemma preserves_substituteCommand (fuel : nat) (cmdLine : string) :
  preserves R (substituteCommand sys fuel cmdLine).
Proof.
  revert cmdLine; induction fuel as [|fuel IH]; intros cmdLine.
  - apply preserves_outOfFuel.
  - rewrite substituteCommand_unfold. frame; apply IH.
Qed.

Lemma preserves_userHomeDir : preserves R (userHomeDir sys).
Proof. unfold userHomeDir. frame. Qed.

Lemma preserves_jobAt (n : Z) : preserves R (jobAt n).
Proof. unfold jobAt. frame. Qed.

Ltac frames :=
  repeat first [ frame_step
               | apply preserves_Run
               | apply preserves_userHomeDir
               | apply preserves_jobAt
               | apply preserves_executeExternalCommand ].

(** The cache is filled for a name that is looked up and missed. *)
Lemma scanPath_frame (paths : list string) (cmd : string) (args : list string)
    (s : Shell) :
  commandCache s !! cmd = None -> R s (final (scanPath sys paths cmd args s)).
Proof.
  revert s; induction paths as [|path paths IH]; intros s Hmiss; simpl.
  - apply (frame_refl R HR).
  - rewrite final_bind. unfold call at 1.
    apply (frame_trans R HR _ (set_log (log s ++ [CStat (filepath_Join sys path cmd)]) s));
      [apply (frame_log R HR)|].
    destruct (r_ok _).
    + rewrite final_bind. unfold cacheCommandPath at 1, modify at 1.
      eapply (frame_trans R HR); [apply (frame_cache R HR); exact Hmiss|].
      apply preserves_bind; [apply preserves_executeExternalCommand|].
      intros _. apply preserves_ret.
    + apply IH. exact Hmiss.
Qed.

Lemma preserves_runExternal (cmd : string) (args : list string) :
  preserves R (runExternal sys cmd args).
Proof.
  intros s. unfold runExternal. rewrite final_bind. unfold getCachedCommandPath, gets.
  destruct (commandCache s !! cmd) as [path|] eqn:Hc.
  - apply preserves_executeExternalCommand.
  - rewrite final_bind. unfold call at 1.
    apply (frame_trans R HR _ (set_log (log s ++ [CGetenv "PATH"]) s));
      [apply (frame_log R HR)|].
    rewrite final_bind.
    match goal with
    | |- context [scanPath sys ?ps cmd args ?s1] =>
        pose proof (scanPath_frame ps cmd args s1 Hc) as Hscan;
        destruct (scanPath sys ps cmd args s1) as [[|] s2| | |]; try exact Hscan
    end.
    eapply (frame_trans R HR); [exact Hscan | apply preserves_Fprint].
Qed.

Lemma typeScan_frame (paths : list string) (arg : string) (s : Shell) :
  commandCache s !! arg = None -> R s (final (typeScan sys paths arg s)).
Proof.
  revert s; induction paths as [|path paths IH]; intros s Hmiss; simpl.
  - apply (frame_refl R HR).
  - rewrite final_bind. unfold call at 1.
    apply (frame_trans R HR _ (set_log (log s ++ [CStat (filepath_Join sys path arg)]) s));
      [apply (frame_log R HR)|].
    destruct (r_ok _).
    + rewrite final_bind. unfold Fprint at 1, modify at 1.
      eapply (frame_trans R HR); [apply (frame_writer R HR)|].
      rewrite final_bind. unfold cacheCommandPath at 1, modify at 1.
      eapply (frame_trans R HR); [apply (frame_cache R HR); exact Hmiss|].
      apply (frame_refl R HR).
    + apply IH. exact Hmiss.
Qed.

Lemma preserves_builtin_type (args : list string) :
  preserves R (builtin_type sys args).
Proof.
  intros s. unfold builtin_type. destruct args as [|arg args].
  { apply (frame_refl R HR). }
  destruct (isBuiltin arg); [apply preserves_Fprint|].
  rewrite final_bind. unfold getCachedCommandPath, gets.
  destruct (commandCache s !! arg) as [path|] eqn:Hc; [apply preserves_Fprint|].
  rewrite final_bind. unfold call at 1.
  apply (frame_trans R HR _ (set_log (log s ++ [CGetenv "PATH"]) s));
    [apply (frame_log R HR)|].
  rewrite final_bind.
  match goal with
  | |- context [typeScan sys ?ps arg ?s1] =>
      pose proof (typeScan_frame ps arg s1 Hc) as Hscan;
      destruct (typeScan sys ps arg s1) as [[|] s2| | |]; try exact Hscan
  end.
  eapply (frame_trans R HR); [exact Hscan | apply preserves_Fprint].
Qed.

Lemma preserves_builtin_exit : preserves R (builtin_exit sys).
Proof. unfold builtin_exit, saveAliasesAndEnvVars, saveEnvVars. frames. Qed.

Lemma preserves_executeBuiltinCommand (cmd : string) (args : list string) :
  preserves R (executeBuiltinCommand sys cmd args).
Proof.
  unfold executeBuiltinCommand.
  repeat match goal with
         | |- preserves _ (if String.eqb cmd ?name then _ else _) =>
             destruct (String.eqb cmd name)
         end;
    try apply preserves_builtin_type; try apply preserves_builtin_exit;
    try apply preserves_ret; try apply preserves_Fprint.
  - unfold builtin_pwd. frames.
  - unfold builtin_cd. frames.
  - unfold builtin_whoami. frames.
  - unfold builtin_ls. frames.
  - unfold builtin_cat, eachOperand. frames.
  - unfold builtin_touch, eachOperand. frames.
  - unfold builtin_rm, eachOperand. frames.
  - unfold builtin_mkdir, eachOperand. frames.
  - unfold builtin_rmdir, eachOperand. frames.
  - unfold builtin_history. frames.
  - unfold builtin_clear. frames.
  - unfold builtin_alias. frames.
  - unfold builtin_help. frames.
  - unfold builtin_unalias. frames.
  - unfold builtin_export. frames.
  - unfold builtin_unset. frames.
  - unfold builtin_jobs. frames.
  - unfold builtin_fg. frames.
  - unfold builtin_bg, sendSignalContinue. frames.
  - unfold builtin_kill. frames.
  - unfold builtin_shell, handleShellCustomization, printShellCustomization.
    frames.
Qed.

Lemma preserves_buildStages (commands : list string) :
  preserves R (buildStages commands).
Proof. induction commands as [|c commands IH]; simpl; frames. exact IH. Qed.

Lemma preserves_executePipedCommands (cmdLine : string) :
  preserves R (executePipedCommands sys cmdLine).
Proof.
  unfold executePipedCommands.
  apply preserves_bind; [apply preserves_buildStages | intros ?]. frames.
Qed.

Lemma preserves_withInput (redirectIn name : string) (cmd : Cmd) :
  preserves R (withInput sys redirectIn name cmd).
Proof. unfold withInput, runRedirected. frames. Qed.

Lemma preserves_executeRedirectedCommand (cmdLine : string) :
  preserves R (executeRedirectedCommand sys cmdLine).
Proof.
  unfold executeRedirectedCommand.
  generalize (strings.Index cmdLine ">") (strings.Index cmdLine "<").
  intros redirectOutIndex redirectInIndex. cbv zeta.
  repeat match goal with
         | |- preserves _ (let (_, _) := (if ?b then _ else _) in _) => destruct b
         end;
    repeat match goal with
           | |- context [strings.Fields ?x] =>
               generalize (strings.Fields x); intros ?
           | |- context [strings.TrimSpace ?x] =>
               generalize (strings.TrimSpace x); intros ?
           end;
    repeat lazymatch goal with
           | |- preserves _ (withInput _ _ _ _) => apply preserves_withInput
           | _ => frame_step
           end.
Qed.

Lemma preserves_runBackground (cmdLine : string) :
  preserves R (runBackground sys cmdLine).
Proof. unfold runBackground. frames. Qed.

Lemma preserves_dispatch (cmdLine : string) : preserves R (dispatch sys cmdLine).
Proof.
  unfold dispatch.
  destruct (strings.HasSuffix cmdLine backslash); [frames|].
  destruct (strings.Contains cmdLine "|"); [apply preserves_executePipedCommands|].
  apply preserves_bind; [apply preserves_index0 | intros cmd].
  apply preserves_bind; [apply preserves_gets | intros al].
  destruct (al !! cmd);
    (destruct (isBuiltin _); [apply preserves_executeBuiltinCommand|]);
    (destruct (strings.HasSuffix cmdLine "&"); [apply preserves_runBackground|]);
    (destruct (_ || _); [apply preserves_executeRedirectedCommand
                        | apply preserves_runExternal]).
Qed.

(** handleCommand after the line has been recorded. *)
Lemma preserves_interpret (fuel : nat) (cmdLine : string) :
  preserves R
    (bind (substituteCommand sys fuel cmdLine) (fun cmdLine =>
       bind (call sys (CExpandEnv cmdLine)) (fun r => dispatch sys (r_out r)))).
Proof.
  apply preserves_bind; [apply preserves_substituteCommand | intros ?].
  apply preserves_bind; [apply preserves_call | intros ?].
  apply preserves_dispatch.
Qed.

End Preserved.

(** ** History *)

Section Trimming.

Import strings.

Variable f : ascii -> bool.







End Trimming.



Section History.

Import strings.

Variable sys : System.




Lemma run_cons (ev : Event) (evs : list Event) (s : Shell) :
  run sys (ev :: evs) s = bind (step sys ev) (fun _ => run sys evs) s.
Proof. reflexivity. Qed.







End History.

Section NotFound.

Import strings.

Variable sys : System.



End NotFound.


Section Listing.

Import strings.

Variable sys : System.



End Listing.





(** ** The path cache *)

Lemma cacheExpiration_pos : 0 < cacheExpiration.
Proof. reflexivity. Qed.

Lemma cacheInv_insert (cmd path : string) (s : Shell) :
  commandCache s !! cmd = None -> cacheInv s ->
  cacheInv (set_timers (timers s ++ [(clock s + cacheExpiration, cmd)])
              (set_commandCache (<[cmd := path]> (commandCache s)) s)).
Proof.
  intros Hmiss (Hnd & Hdom & Hdue). unfold cacheInv. simpl.
  assert (Hfresh : cmd ∉ (timers s).*2).
  { intros Hin. apply Hdom in Hin as [v Hv]. congruence. }
  split; [|split].
  - rewrite fmap_app. simpl. apply NoDup_app. split; [exact Hnd|]. split.
    + intros k Hk Hk'. apply list_elem_of_singleton in Hk'. now subst.
    + apply NoDup_singleton.
  - intros k. rewrite fmap_app, elem_of_app. simpl.
    rewrite list_elem_of_singleton, lookup_insert_is_Some, <- Hdom.
    split.
    + intros [->|[_ Hk]]; [now right | now left].
    + intros [Hk | ->]; [|now left].
      destruct (decide (cmd = k)) as [->|Hne]; [now left | now right].
  - intros d k Hin. apply elem_of_app in Hin as [Hin|Hin].
    + exact (Hdue d k Hin).
    + apply list_elem_of_singleton in Hin. injection Hin as Hd Hk. subst d k.
      pose proof cacheExpiration_pos. lia.
Qed.

Lemma cacheGrows_frame : Frame cacheGrows.
Proof.
  split; unfold cacheGrows;
    try (intros v s; split;
         [reflexivity | split; [intros H; exact H | split; intros; assumption]]).
  - intros s. split; [reflexivity | split; [tauto | split; intros; assumption]].
  - intros s1 s2 s3 (Hc1 & Hi1 & Hm1 & Ht1) (Hc2 & Hi2 & Hm2 & Ht2).
    split; [congruence|]. split; [tauto|]. split.
    + intros k v Hk. apply Hm2, Hm1, Hk.
    + intros t Ht. apply Ht2, Ht1, Ht.
  - intros cmd path s Hmiss. simpl. split; [reflexivity|]. split; [|split].
    + now apply cacheInv_insert.
    + intros k v Hk. rewrite lookup_insert_ne; [exact Hk | congruence].
    + intros t Ht. apply elem_of_app. now left.
Qed.

Section Timers.

Implicit Types (l : list (Z * string)) (m : gmap string string).







End Timers.

Section Cache.

Variable sys : System.















(** A scan that finds the command leaves its path in the cache, with a
    timer set to the expiration time. *)
Lemma scanPath_found (paths : list string) (cmd : string) (args : list string) :
  forall s s',
    commandCache s !! cmd = None ->
    scanPath sys paths cmd args s = Ret true s' ->
    exists dir, dir ∈ paths
      /\ commandCache s' !! cmd = Some (filepath_Join sys dir cmd)
      /\ (clock s + cacheExpiration, cmd) ∈ timers s'.
Proof.
  induction paths as [|path paths IH]; intros s s' Hmiss; [discriminate|].
  simpl. unfold bind at 1, call at 1.
  destruct (r_ok _).
  - unfold bind at 1, cacheCommandPath at 1, modify at 1. unfold bind at 1.
    match goal with
    | |- context [executeExternalCommand sys ?p args ?s1] =>
        pose proof (preserves_executeExternalCommand sys cacheGrows
                      cacheGrows_frame p args s1) as (_ & _ & Hmono & Htm);
        destruct (executeExternalCommand sys p args s1) as [[] s2| | |];
          try discriminate
    end.
    intros [= <-]. exists path. split; [apply elem_of_cons; now left|].
    cbn [final] in *. split.
    + apply Hmono. simpl. apply lookup_insert_eq.
    + apply Htm. simpl. apply elem_of_app. right. apply list_elem_of_singleton.
      reflexivity.
  - intros Hrun.
    destruct (IH (set_log (log s ++ [CStat (filepath_Join sys path cmd)]) s) s'
                Hmiss Hrun) as (dir & Hdir & Hc & Ht).
    exists dir. split; [apply elem_of_cons; now right|]. now split.
Qed.

End Cache.

Lemma runExternal_hit (sys : System) (cmd path : string) (args : list string) (s : Shell) :
  commandCache s !! cmd = Some path ->
  runExternal sys cmd args s = executeExternalCommand sys path args s.
Proof. intros Hc. unfold runExternal, bind at 1, getCachedCommandPath, gets. now rewrite Hc. Qed.


Section Scan.

Variable sys : System.




End Scan.



(** * Further properties of the code *)

(** ** echo *)

Section Echo.

Import strings.

Variable sys : System.






End Echo.



(** ** alias and unalias *)

Section AliasTable.

Import strings.

Variable sys : System.

Lemma SplitN2_cons (c sep : ascii) (s : string) :
  SplitN2 (String c s) sep
  = if Ascii.eqb c sep then [""; s]
    else match SplitN2 s sep with
         | w :: ws => String c w :: ws
         | [] => [String c ""]
         end.
Proof. reflexivity. Qed.

Lemma no_byte_cons (c sep : ascii) (s : string) :
  Contains (String c s) (String sep "") = false ->
  Ascii.eqb c sep = false /\ Contains s (String sep "") = false.
Proof.
  intros H. apply Contains_false in H. rewrite index_cons in H.
  destruct (HasPrefix (String c s) (String sep "")) eqn:Hc; [discriminate|].
  destruct (index s (String sep "")) eqn:Hi; [discriminate|].
  simpl in Hc. rewrite andb_true_r in Hc. split.
  - now rewrite Ascii.eqb_sym.
  - now apply Contains_false.
Qed.

(** An assignment is cut at its first [=]. *)
Lemma SplitN2_assignment (name value : string) (sep : ascii) :
  Contains name (String sep "") = false ->
  SplitN2 (name +:+ String sep "" +:+ value) sep = [name; value].
Proof.
  induction name as [|c name IH]; intros Hn.
  - rewrite app_nil_l_s, app_cons_s, app_nil_l_s, SplitN2_cons.
    now rewrite Ascii.eqb_refl.
  - apply no_byte_cons in Hn as [Hc Hn].
    rewrite app_cons_s, SplitN2_cons, Hc, (IH Hn). reflexivity.
Qed.

Lemma SplitN2_whole (a : string) (sep : ascii) :
  Contains a (String sep "") = false -> SplitN2 a sep = [a].
Proof.
  induction a as [|c a IH]; intros Ha; [reflexivity|].
  apply no_byte_cons in Ha as [Hc Ha].
  rewrite SplitN2_cons, Hc, (IH Ha). reflexivity.
Qed.

(** Arguments without [=] are passed over. *)
Lemma alias_malformed_ignored (rest : list string) (s : Shell) :
  Forall (fun a => Contains a "=" = false) rest ->
  forM_ rest (fun alias =>
    match SplitN2 alias "=" with
    | [name; value] =>
        modify (fun s => set_aliases (<[name := Trim value quotes]> (aliases s)) s)
    | _ => ret tt
    end) s = Ret tt s.
Proof.
  induction 1 as [|a rest Ha _ IH]; [reflexivity|].
  simpl. rewrite (SplitN2_whole a "=" Ha). rewrite bind_ret_l. exact IH.
Qed.

Lemma builtin_alias_defines (name value : string) (rest : list string) (s : Shell) :
  Contains name "=" = false ->
  Forall (fun a => Contains a "=" = false) rest ->
  executeBuiltinCommand sys "alias" ((name +:+ "=" +:+ value) :: rest) s
  = Ret tt (set_aliases (<[name := Trim value quotes]> (aliases s)) s).
Proof.
  intros Hn Hrest.
  change (executeBuiltinCommand sys "alias" ((name +:+ "=" +:+ value) :: rest))
    with (builtin_alias ((name +:+ "=" +:+ value) :: rest)).
  unfold builtin_alias. simpl forM_.
  rewrite (SplitN2_assignment name value "=" Hn).
  unfold bind at 1, modify at 1.
  apply alias_malformed_ignored. exact Hrest.
Qed.

Lemma builtin_unalias_removes (name : string) (s : Shell) :
  executeBuiltinCommand sys "unalias" [name] s
  = Ret tt (set_aliases (delete name (aliases s)) s).
Proof. reflexivity. Qed.

End AliasTable.

(** X2: [alias name=value rest...], where [rest] holds no [=]: the alias
    table gets [name] bound to the value without the quotes around it,
    every other name keeps its binding and the arguments without [=] are
    passed over in silence; so at the prompt, where the arguments are cut
    at blanks, a quoted value is cut at its first blank.  [unalias name]
    after it removes the binding and leaves the other names alone. *)
Theorem alias_defines_unalias_removes
    (sys : System) (name value : string) (rest : list string) (s : Shell) :
  strings.Contains name "=" = false ->
  Forall (fun a => strings.Contains a "=" = false) rest ->
  exists s1 s2,
    executeBuiltinCommand sys "alias" ((name +:+ "=" +:+ value) :: rest) s = Ret tt s1
    /\ aliases s1 !! name = Some (strings.Trim value quotes)
    /\ (forall k, k <> name -> aliases s1 !! k = aliases s !! k)
    /\ writer s1 = writer s /\ log s1 = log s
    /\ executeBuiltinCommand sys "unalias" [name] s1 = Ret tt s2
    /\ aliases s2 !! name = None
    /\ (forall k, k <> name -> aliases s2 !! k = aliases s !! k).
Proof.
  intros Hn Hrest. eexists. eexists.
  split; [now apply builtin_alias_defines|].
  split; [apply lookup_insert_eq|].
  split; [intros k Hk; now apply lookup_insert_ne|].
  split; [reflexivity|]. split; [reflexivity|].
  split; [apply builtin_unalias_removes|].
  split; [apply lookup_delete_eq|].
  intros k Hk. simpl. rewrite lookup_delete_ne by congruence.
  now apply lookup_insert_ne.
Qed.

Lemma alias_defines_unalias_removes_witness :
  exists s1 s2,
    executeBuiltinCommand liveSystem "alias" ["ll='ls"; "-la'"] initShell = Ret tt s1
    /\ aliases s1 !! "ll" = Some "ls"
    /\ (forall k, k <> "ll" -> aliases s1 !! k = aliases initShell !! k)
    /\ writer s1 = writer initShell /\ log s1 = log initShell
    /\ executeBuiltinCommand liveSystem "unalias" ["ll"] s1 = Ret tt s2
    /\ aliases s2 !! "ll" = None
    /\ (forall k, k <> "ll" -> aliases s2 !! k = aliases initShell !! k).
Proof.
  apply (alias_defines_unalias_removes liveSystem "ll" "'ls" ["-la'"] initShell
           eq_refl).
  repeat constructor.
Defined.

(** ** The arrow keys *)

Section Keys.

Implicit Types (h : list string) (e inp : string).











End Keys.



(** ** The job table *)

Lemma jobsGrow_frame : Frame jobsGrow.
Proof.
  split; unfold jobsGrow; try (intros; exists []; simpl; now rewrite app_nil_r).
  - intros s1 s2 s3 [m1 H1] [m2 H2]. exists (m1 ++ m2).
    now rewrite H2, H1, app_assoc.
  - intros job s. now exists [job].
Qed.

Section Jobs.

Variable sys : System.

Lemma handleCommand_jobsGrow (fuel : nat) (line : string) (s : Shell) :
  jobsGrow s (final (handleCommand sys fuel line s)).
Proof.
  unfold handleCommand.
  destruct (String.eqb _ _); [apply (frame_refl _ jobsGrow_frame)|].
  rewrite final_bind. unfold modify at 1.
  apply (frame_trans _ jobsGrow_frame _
           (set_history (history s ++ [strings.TrimSpace line]) s)).
  - exists []. simpl. now rewrite app_nil_r.
  - apply (preserves_interpret sys jobsGrow jobsGrow_frame).
Qed.

Lemma step_jobsGrow (ev : Event) (s : Shell) :
  jobsGrow s (final (step sys ev s)).
Proof.
  destruct ev as [fuel line|dt].
  - simpl. rewrite final_bind. unfold modify at 1.
    apply (frame_trans _ jobsGrow_frame _ (set_input "" s)).
    + apply (frame_input _ jobsGrow_frame).
    + apply handleCommand_jobsGrow.
  - exists []. simpl. now rewrite app_nil_r.
Qed.

Lemma run_jobsGrow (evs : list Event) (s : Shell) :
  jobsGrow s (final (run sys evs s)).
Proof.
  revert s; induction evs as [|ev evs IH]; intros s.
  - apply (frame_refl _ jobsGrow_frame).
  - rewrite run_cons, final_bind.
    pose proof (step_jobsGrow ev s) as Hev.
    destruct (step sys ev s) as [[] s1|s1|c s1|s1]; cbn [final] in *;
      try exact Hev.
    exact (frame_trans _ jobsGrow_frame _ _ _ Hev (IH s1)).
Qed.

Lemma forI_jobsListing (i : Z) (js : list Job) (s : Shell) :
  forI_ i js (fun i job =>
    Fprint ("[" +:+ fmt_d (i + 1) +:+ "]+  " +:+ fmt_d (job_pid job)
            +:+ " Running    " +:+ strings.Join (Args (job_cmd job)) " " +:+ nl)) s
  = Ret tt (set_writer (writer s +:+ jobsListing (i + 1) js) s).
Proof.
  revert i s; induction js as [|job js IH]; intros i s; simpl.
  - unfold ret. rewrite app_nil_r_s. now destruct s.
  - unfold bind, Fprint at 1, modify. rewrite IH. simpl.
    now rewrite !app_assoc_s.
Qed.

End Jobs.

(** X4: the job table only grows.  Whatever is submitted, and however it
    ends, the jobs that were in the table stay in it, in their places: no
    command removes a job, neither [fg], which waits for the process of
    job [N] and does nothing else, nor [kill].  [jobs] lists every job of
    the table as running, numbered from 1. *)
Theorem jobs_are_never_removed (sys : System) :
  (forall (fuel : nat) (line : string) (s : Shell),
     jobsGrow s (final (handleCommand sys fuel line s))) /\
  (forall (evs : list Event) (s : Shell), jobsGrow s (final (run sys evs s))) /\
  (forall (a : string) (rest : list string) (N : Z) (job : Job) (s : Shell),
     strconv.Atoi a = Some N -> 1 <= N ->
     jobs s !! Z.to_nat (N - 1) = Some job ->
     executeBuiltinCommand sys "fg" (a :: rest) s
     = Ret tt (set_log (log s ++ [CWait (job_cmd job)]) s)) /\
  (forall (args : list string) (s : Shell),
     executeBuiltinCommand sys "jobs" args s
     = Ret tt (set_writer (writer s +:+ jobsListing 1 (jobs s)) s)).
Proof.
  split; [|split; [|split]].
  - apply handleCommand_jobsGrow.
  - apply run_jobsGrow.
  - intros a rest N job s Ha HN Hjob.
    change (executeBuiltinCommand sys "fg" (a :: rest)) with (builtin_fg sys (a :: rest)).
    unfold builtin_fg, bind, gets.
    pose proof (lookup_lt_Some _ _ _ Hjob) as Hlt.
    assert (Hrange : 1 <= N <= Z.of_nat (length (jobs s))) by lia.
    rewrite (proj2 (validJob_Some _ _ _) (conj Ha Hrange)).
    unfold jobAt, bind, gets. rewrite Hjob. reflexivity.
  - intros args s.
    change (executeBuiltinCommand sys "jobs" args) with builtin_jobs.
    unfold builtin_jobs, bind, gets. apply (forI_jobsListing 0).
Qed.

Lemma jobs_are_never_removed_witness :
  executeBuiltinCommand liveSystem "fg" ["1"] oneJob
  = Ret tt (set_log [CWait (Command ["sleep"; "9"])] oneJob)
  /\ exists s',
       run liveSystem [Submit 1 "sleep 9 &"; Submit 1 "fg 1"; Submit 1 "kill 101";
                       Submit 1 "jobs"] initShell = Ret tt s'
       /\ jobs s' = [mkJob (mkCmd ["sleep"; "9"] SNil SWriter SWriter) 101]
       /\ writer s' = "[1] 101" +:+ nl +:+ "Process 101 killed" +:+ nl
                      +:+ "[1]+  101 Running    sleep 9" +:+ nl.
Proof.
  split.
  - apply (proj1 (proj2 (proj2 (jobs_are_never_removed liveSystem)))
             "1" [] 1 (mkJob (Command ["sleep"; "9"]) 4242) oneJob);
      reflexivity || lia.
  - eexists. split; [vm_compute; reflexivity|]. split; reflexivity.
Defined.

(** ** The saved files *)



(** ** type *)

Section TypeBuiltin.

Variable sys : System.

(** The scan of [type] stops at the first directory in which the name is
    found: the path is reported and cached, and nothing is run. *)
Lemma typeScan_first (before : list string) (dir : string) (after : list string)
    (arg : string) :
  let stat := fun d => CStat (filepath_Join sys d arg) in
  let path := filepath_Join sys dir arg in
  (forall calls d, d ∈ before -> r_ok (answer sys calls (stat d)) = false) ->
  forall s,
    r_ok (answer sys (log s ++ (stat <$> before)) (stat dir)) = true ->
    typeScan sys (before ++ dir :: after) arg s
    = Ret true
        (set_timers (timers s ++ [(clock s + cacheExpiration, arg)])
           (set_commandCache (<[arg := path]> (commandCache s))
              (set_writer (writer s +:+ arg +:+ " is " +:+ path +:+ nl)
                 (set_log (log s ++ (stat <$> before) ++ [stat dir]) s)))).
Proof.
  intros stat path Hbefore. subst stat path. cbv beta in *.
  induction before as [|d before IH]; intros s Hdir.
  - simpl in Hdir. rewrite app_nil_r in Hdir.
    simpl. unfold bind at 1, call at 1. rewrite Hdir.
    reflexivity.
  - simpl. unfold bind at 1, call at 1.
    rewrite (Hbefore _ d) by apply list_elem_of_here.
    rewrite (IH (fun calls d' Hd' => Hbefore calls d' (list_elem_of_further _ _ _ Hd'))
               (set_log (log s ++ [CStat (filepath_Join sys d arg)]) s))
      by (simpl; rewrite <- app_assoc; exact Hdir).
    simpl. now rewrite <- app_assoc.
Qed.

Lemma typeScan_absent (paths : list string) (arg : string) (s : Shell) :
  (forall calls dir, dir ∈ paths ->
     r_ok (answer sys calls (CStat (filepath_Join sys dir arg))) = false) ->
  typeScan sys paths arg s
  = Ret false
      (set_log (log s ++ ((fun d => CStat (filepath_Join sys d arg)) <$> paths)) s).
Proof.
  revert s; induction paths as [|path paths IH]; intros s Habsent; simpl.
  - unfold ret. now rewrite app_nil_r, set_log_id.
  - unfold bind, call. rewrite (Habsent _ path) by apply list_elem_of_here.
    rewrite IH by (intros calls dir Hdir; apply Habsent; now apply list_elem_of_further).
    simpl. now rewrite <- app_assoc.
Qed.

End TypeBuiltin.

(** X6: [type name].  A builtin is reported as such.  Any other name is
    looked up in the path cache, and a cached name is reported with its
    cached path without a scan.  A name that is not cached is searched in
    the directories of PATH in order: the first path found is reported and
    cached, nothing is run, and an external command of that name is then
    run from the cache with that path; when no directory has it, it is
    reported as not found and nothing is cached.  Aliases are not looked
    at. *)
Theorem type_reports_and_caches
    (sys : System) (arg : string) (rest : list string) (s : Shell) :
  (isBuiltin arg = true ->
   executeBuiltinCommand sys "type" (arg :: rest) s
   = Ret tt (set_writer (writer s +:+ arg +:+ " is a shell builtin" +:+ nl) s)) /\
  (forall path,
     isBuiltin arg = false -> commandCache s !! arg = Some path ->
     executeBuiltinCommand sys "type" (arg :: rest) s
     = Ret tt (set_writer (writer s +:+ arg +:+ " is " +:+ path +:+ nl) s)) /\
  (forall before dir after,
     isBuiltin arg = false -> commandCache s !! arg = None ->
     strings.Split (r_out (answer sys (log s) (CGetenv "PATH"))) (PathListSeparator sys)
     = before ++ dir :: after ->
     let stat := fun d => CStat (filepath_Join sys d arg) in
     let path := filepath_Join sys dir arg in
     (forall calls d, d ∈ before -> r_ok (answer sys calls (stat d)) = false) ->
     r_ok (answer sys (log s ++ CGetenv "PATH" :: (stat <$> before)) (stat dir)) = true ->
     exists s1,
       executeBuiltinCommand sys "type" (arg :: rest) s = Ret tt s1
       /\ log s1 = log s ++ CGetenv "PATH" :: (stat <$> before) ++ [stat dir]
       /\ writer s1 = writer s +:+ arg +:+ " is " +:+ path +:+ nl
       /\ commandCache s1 !! arg = Some path
       /\ forall args,
            runExternal sys arg args s1 = executeExternalCommand sys path args s1) /\
  (isBuiltin arg = false -> commandCache s !! arg = None ->
   (forall calls calls' dir,
      dir ∈ strings.Split (r_out (answer sys calls (CGetenv "PATH")))
              (PathListSeparator sys) ->
      r_ok (answer sys calls' (CStat (filepath_Join sys dir arg))) = false) ->
   exists s1,
     executeBuiltinCommand sys "type" (arg :: rest) s = Ret tt s1
     /\ writer s1 = writer s +:+ arg +:+ " not found" +:+ nl
     /\ commandCache s1 = commandCache s).
Proof.
  change (executeBuiltinCommand sys "type" (arg :: rest))
    with (builtin_type sys (arg :: rest)).
  unfold builtin_type. split; [|split; [|split]].
  - now intros ->.
  - intros path -> Hc. unfold bind, getCachedCommandPath, gets. now rewrite Hc.
  - intros before dir after Hb Hc Hpaths Hbefore Hdir. rewrite Hb.
    unfold bind at 1, getCachedCommandPath, gets. rewrite Hc.
    unfold bind at 1, call at 1. rewrite Hpaths.
    unfold bind at 1.
    rewrite (typeScan_first sys before dir after arg Hbefore
               (set_log (log s ++ [CGetenv "PATH"]) s))
      by (simpl; rewrite <- app_assoc; exact Hdir).
    eexists. split; [reflexivity|]. simpl.
    split; [now rewrite <- app_assoc|]. split; [reflexivity|].
    split; [apply lookup_insert_eq|].
    intros args. apply runExternal_hit. simpl. apply lookup_insert_eq.
  - intros Hb Hc Habsent. rewrite Hb.
    unfold bind at 1, getCachedCommandPath, gets. rewrite Hc.
    unfold bind at 1, call at 1. unfold bind at 1.
    rewrite (typeScan_absent sys _ arg _ (fun calls' => Habsent _ calls')).
    eexists. split; [reflexivity|]. split; reflexivity.
Qed.

Lemma type_reports_and_caches_witness :
  exists s1,
    executeBuiltinCommand liveSystem "type" ["date"] initShell = Ret tt s1
    /\ log s1 = [CGetenv "PATH"; CStat "/usr/bin/date"; CStat "/bin/date"]
    /\ writer s1 = "date is /bin/date" +:+ nl
    /\ commandCache s1 !! "date" = Some "/bin/date"
    /\ forall args,
         runExternal liveSystem "date" args s1
         = executeExternalCommand liveSystem "/bin/date" args s1.
Proof.
  apply (proj1 (proj2 (proj2 (type_reports_and_caches liveSystem "date" [] initShell)))
           ["/usr/bin"] "/bin" [] eq_refl eq_refl eq_refl).
  - intros calls d Hd. apply list_elem_of_singleton in Hd. now subst d.
  - reflexivity.
Defined.
